(** * Attachment exporter: [scripts/py/export-photos.py]

    A shallow embedding of the export script and the properties of its
    specification.  The script talks to three outside parties: the
    geoprocessing host ([arcpy]: parameters, dataset catalogue, cursors and
    the message sink), the operating system ([os.path], [os.makedirs]) and
    the file objects of the interpreter ([open], [write], the [with]
    statement).  They are modelled as operations of a state-and-exception
    monad over an explicit [world]; what the host decides on its own (which
    datasets exist, what a cursor yields, which call fails and how) is
    collected in the class [Host], and every theorem holds for an arbitrary
    instance of it. *)

From Stdlib Require Import ZArith List.
From Stdlib.Strings Require Import String Ascii Byte.
From stdpp Require Import base option list gmap strings pretty.

(** ** Values read from the table *)

(** [str(e)] of a caught exception.  Every failure of the modelled calls is
    a subclass of [Exception] (OSError, RuntimeError, TypeError,
    AttributeError), which is what [except Exception] catches. *)
Record exn := Exception { description : string }.

(** The ATTACHMENTID cell: an integer, a text identifier, or null. *)
Inductive ident :=
| id_int (n : Z)
| id_str (s : string)
| id_none.

(** One tuple yielded by the cursor for the fields
    ['DATA', 'ATT_NAME', 'ATTACHMENTID']: a BLOB cell is a [memoryview] or
    [None], a text cell is a [str] or [None]. *)
Record row := Row {
  DATA : option (list byte);
  ATT_NAME : option string;
  ATTACHMENTID : ident;
}.

(** What iterating a cursor does: each step yields a row, ends the
    iteration, or raises. *)
Inductive cursor :=
| StopIteration
| Next (item : row) (rest : cursor)
| CursorError (e : exn).

Fixpoint prepend (rows : list row) (c : cursor) : cursor :=
  match rows with
  | [] => c
  | r :: rows' => Next r (prepend rows' c)
  end.

Fixpoint rows_of (c : cursor) : list row :=
  match c with
  | Next r rest => r :: rows_of rest
  | _ => []
  end.

(** ** The world *)

Inductive message :=
| Message (text : string)      (* arcpy.AddMessage *)
| ErrorMessage (text : string) (* arcpy.AddError *).

Inductive file_mode := wb.

(** Calls made to the host, the operating system and file objects. *)
Inductive call :=
| call_GetParameterAsText (index : nat)
| call_Exists (dataset : string)
| call_path_exists (path : string)
| call_makedirs (path : string)
| call_SearchCursor (table : string) (fields : list string)
| call_open (path : string) (mode : file_mode)
| call_write (path : string) (data : list byte)
| call_close (path : string).

(** Paths are compared as strings: the disk is taken to be case-sensitive
    and every file to have one spelling. *)
Record world := World {
  dirs : gset string;                 (* directories on disk *)
  files : gmap string (list byte);    (* regular files on disk, by path *)
  handles : list string;              (* open file objects, by path *)
  log : list message;                 (* the message sink, oldest first *)
  calls : list call;                  (* calls made so far, oldest first *)
}.

Definition record_call (c : call) (w : world) : world :=
  World (dirs w) (files w) (handles w) (log w) (calls w ++ [c]).

Definition emit (m : message) (w : world) : world :=
  World (dirs w) (files w) (handles w) (log w ++ [m]) (calls w).

Definition set_dirs (d : gset string) (w : world) : world :=
  World d (files w) (handles w) (log w) (calls w).

Definition set_files (f : gmap string (list byte)) (w : world) : world :=
  World (dirs w) f (handles w) (log w) (calls w).

Definition set_handles (h : list string) (w : world) : world :=
  World (dirs w) (files w) h (log w) (calls w).

(** ** The host *)

(** Everything the script does not control.  The fault oracles see the whole
    world at the moment of the call, so any schedule of failures can be
    expressed; a fault of [os.makedirs] says how many leading ancestors were
    created before it failed, a fault of [write] how many leading bytes
    reached the file. *)
Class Host := {
  (* the text of the tool parameter at an index *)
  parameter_text : nat → string;
  (* whether the catalogue has a dataset of that name *)
  dataset_exists : string → bool;
  (* what a search cursor on a table, projected to some fields, does *)
  open_cursor : string → list string → exn + cursor;
  (* the platform's rule for joining a directory and a file name *)
  path_join : string → string → string;
  (* the proper ancestors of a path, outermost first *)
  path_ancestors : string → list string;
  makedirs_fault : world → string → option (exn * nat);
  open_fault : world → string → option exn;
  write_fault : world → string → list byte → option (exn * nat);
}.

(** ** The monad: state, and exceptions that keep the state *)

Inductive outcome (A : Type) :=
| Returned (a : A)
| Raised (e : exn).
Arguments Returned {A} a.
Arguments Raised {A} e.

Definition M (A : Type) : Type := world → outcome A * world.

Global Instance py_ret : MRet M := λ A a w, (Returned a, w).

Definition raise {A} (e : exn) : M A := λ w, (Raised e, w).

(** Sequencing: an exception in the first part skips the second and keeps
    the state reached. *)
Global Instance py_bind : MBind M := λ A B k m w,
  match m w with
  | (Returned a, w') => k a w'
  | (Raised e, w') => (Raised e, w')
  end.

(** [try: body except Exception as e: handler(e)] *)
Definition try_except (body : M unit) (handler : exn → M unit) : M unit :=
  fun w =>
    match body w with
    | (Returned a, w') => (Returned a, w')
    | (Raised e, w') => handler e w'
    end.

(** [with enter as x: body] : the exit action runs whether the body returns
    or raises, and the body's outcome is passed on. *)
Definition with_ {R A} (enter : M R) (exit : R → world → world)
    (body : R → M A) : M A :=
  x ← enter;
  (λ w, let '(r, w') := body x w in (r, exit x w')) : M A.

(** [for item in cursor: body] *)
Fixpoint for_in (c : cursor) (body : row → M unit) : M unit :=
  match c with
  | StopIteration => mret tt
  | Next item rest => body item ;; for_in rest body
  | CursorError e => raise e
  end.

(** ** Library calls *)

Section Library.
Context `{Host}.

Definition GetParameterAsText (index : nat) : M string :=
  fun w => (Returned (parameter_text index),
            record_call (call_GetParameterAsText index) w).

Definition AddMessage (text : string) : M unit :=
  fun w => (Returned tt, emit (Message text) w).

Definition AddError (text : string) : M unit :=
  fun w => (Returned tt, emit (ErrorMessage text) w).

Definition Exists (dataset : string) : M bool :=
  fun w => (Returned (dataset_exists dataset),
            record_call (call_Exists dataset) w).

(** A path exists when it names a directory or a file. *)
Definition path_present (w : world) (path : string) : bool :=
  bool_decide (path ∈ dirs w) || bool_decide (is_Some (files w !! path)).

Definition os_path_exists (path : string) : M bool :=
  fun w => (Returned (path_present w path),
            record_call (call_path_exists path) w).

Definition os_path_join (a b : string) : string := path_join a b.

(** [os.makedirs(path)]: the leaf and all missing ancestors. *)
Definition os_makedirs (path : string) : M unit :=
  fun w =>
    let w1 := record_call (call_makedirs path) w in
    match makedirs_fault w path with
    | Some (e, k) =>
        (Raised e,
         set_dirs (dirs w ∪ list_to_set (take k (path_ancestors path))) w1)
    | None =>
        (Returned tt,
         set_dirs (dirs w ∪ list_to_set (path_ancestors path) ∪ {[path]}) w1)
    end.

Definition SearchCursor (table : string) (fields : list string) : M cursor :=
  fun w =>
    let w1 := record_call (call_SearchCursor table fields) w in
    match open_cursor table fields with
    | inl e => (Raised e, w1)
    | inr c => (Returned c, w1)
    end.

(** Leaving the cursor's [with] block changes nothing that is modelled. *)
Definition cursor_exit (c : cursor) (w : world) : world := w.

(** The state right after [open(path, mode)] succeeded.  In mode 'wb' the
    file exists and is empty, whatever it held before; a handle is open on
    it. *)
Definition opened (path : string) (mode : file_mode) (w : world) : world :=
  set_handles (path :: handles w)
    (set_files (match mode with wb => <[path := []]> (files w) end)
       (record_call (call_open path mode) w)).

(** [open(path, mode)]; the file object is identified by its path. *)
Definition open (path : string) (mode : file_mode) : M string :=
  fun w =>
    match open_fault w path with
    | Some e => (Raised e, record_call (call_open path mode) w)
    | None => (Returned path, opened path mode w)
    end.

Definition file_contents (w : world) (path : string) : list byte :=
  default [] (files w !! path).

(** [file.write(data)] appends at the end of what the handle has written
    so far.  A fault stands for a failure of the write or of the flush when
    the file is closed; either surfaces inside the [with] block. *)
Definition file_write (file : string) (data : list byte) : M nat :=
  fun w =>
    let w1 := record_call (call_write file data) w in
    match write_fault w file data with
    | Some (e, k) =>
        (Raised e,
         set_files
           (<[file := file_contents w file ++ take k data]> (files w)) w1)
    | None =>
        (Returned (length data),
         set_files (<[file := file_contents w file ++ data]> (files w)) w1)
    end.

Fixpoint remove_first (path : string) (hs : list string) : list string :=
  match hs with
  | [] => []
  | h :: hs' => if decide (h = path) then hs' else h :: remove_first path hs'
  end.

(** Leaving the [with] block of a file object closes it. *)
Definition file_exit (file : string) (w : world) : world :=
  set_handles (remove_first file (handles w))
    (record_call (call_close file) w).

Definition double_quote : string := String (ascii_of_nat 34) EmptyString.

(** The AttributeError of calling [tobytes] on [None]. *)
Definition no_tobytes : exn :=
  Exception "'NoneType' object has no attribute 'tobytes'".

(** The TypeError of adding [None] to a [str]. *)
Definition cannot_concatenate : exn :=
  Exception ("can only concatenate str (not " +:+ double_quote
             +:+ "NoneType" +:+ double_quote +:+ ") to str").

(** [attachment.tobytes()] *)
Definition tobytes (attachment : option (list byte)) : M (list byte) :=
  match attachment with
  | Some b => mret b
  | None => raise no_tobytes
  end.

(** [a + b] for a [str] on the left. *)
Definition str_add (a : string) (b : option string) : M string :=
  match b with
  | Some s => mret (a +:+ s)
  | None => raise cannot_concatenate
  end.

(** The truth value of a [str]: only the empty string is false. *)
Definition truth (s : string) : bool :=
  match s with
  | EmptyString => false
  | String _ _ => true
  end.

(** [f"{x}"] *)
Definition format (x : ident) : string :=
  match x with
  | id_int n => pretty n
  | id_str s => s
  | id_none => "None"
  end.

(** ** The script *)

(** Lines 27-40: the body of the [for] loop. *)
Definition loop_body (fileLocation : string) (item : row) : M unit :=
  let attachment := DATA item in
  let attachment_name := ATT_NAME item in
  let attachment_id := ATTACHMENTID item in
  let filenum := "ATT" +:+ format attachment_id +:+ "_" in
  filename ← str_add filenum attachment_name;
  let file_path := os_path_join fileLocation filename in
  with_ (open file_path wb) file_exit (fun file =>
    data ← tobytes attachment;
    file_write file data) ;;
  AddMessage ("Saved attachment: " +:+ filename).

(** Lines 14-40: the block under [try]. *)
Definition try_block (inTable fileLocation : string) : M unit :=
  present ← Exists inTable;
  if negb present then
    AddError ("Input table " +:+ inTable +:+ " does not exist.")
  else
    (there ← os_path_exists fileLocation;
     if negb there then
       os_makedirs fileLocation ;;
       AddMessage ("Created directory: " +:+ fileLocation)
     else mret tt) ;;
    with_ (SearchCursor inTable ["DATA"; "ATT_NAME"; "ATTACHMENTID"])
      cursor_exit
      (fun cursor => for_in cursor (loop_body fileLocation)).

(** Lines 12-43. *)
Definition extract_attachments (inTable fileLocation : string) : M unit :=
  try_except (try_block inTable fileLocation)
    (fun e =>
       AddError ("Error while extracting attachments: " +:+ description e)).

(** Lines 46-53: the module body. *)
Definition main : M unit :=
  inTable ← GetParameterAsText 0;
  fileLocation ← GetParameterAsText 1;
  if negb (truth inTable) || negb (truth fileLocation) then
    AddError "Input table and file location are required."
  else extract_attachments inTable fileLocation.

End Library.

(** ** Observations on a run *)

(** The messages a run from [w] to [w'] added to the sink. *)
Definition new_messages (w w' : world) : list message :=
  drop (length (log w)) (log w').

Definition new_calls (w w' : world) : list call :=
  drop (length (calls w)) (calls w').

Definition is_saved (m : message) : bool :=
  match m with
  | Message text => String.prefix "Saved attachment: " text
  | ErrorMessage _ => false
  end.

Definition is_error (m : message) : bool :=
  match m with
  | Message _ => false
  | ErrorMessage _ => true
  end.

Definition is_open (c : call) : bool :=
  match c with
  | call_open _ _ => true
  | _ => false
  end.

Definition is_file_call (c : call) : bool :=
  match c with
  | call_open _ _ | call_write _ _ | call_close _ => true
  | _ => false
  end.

(** A trace of file calls in which files are handled one at a time: each
    [open] is followed by at most one [write] to the same file and then by
    its [close]; only the last call may be an [open] left without them. *)
Fixpoint scoped (cs : list call) : bool :=
  match cs with
  | [] => true
  | [call_open _ _] => true
  | call_open p _ :: call_close q :: rest => bool_decide (p = q) && scoped rest
  | call_open p _ :: call_write q _ :: call_close q' :: rest =>
      bool_decide (p = q) && bool_decide (p = q') && scoped rest
  | _ => false
  end.

(** Whether a character occurs in a string. *)
Fixpoint has_char (c : ascii) (s : string) : bool :=
  match s with
  | EmptyString => false
  | String c' s' => bool_decide (c = c') || has_char c s'
  end.

(** Rows are visited in cursor order and line 40 reports each one right
    after its file is closed, so the row at position [i] was processed
    to the end exactly when the run reported more than [i] rows saved. *)
Definition saved_count (w w' : world) : nat :=
  length (filter is_saved (new_messages w w')).

Section Derived.
Context `{Host}.

(** Lines 32-33. *)
Definition file_name (item : row) : option string :=
  (λ name, ("ATT" +:+ format (ATTACHMENTID item) +:+ "_") +:+ name)
    <$> ATT_NAME item.

(** Line 34. *)
Definition output_path (fileLocation : string) (item : row) : option string :=
  os_path_join fileLocation <$> file_name item.

(** Line 40. *)
Definition saved_message (item : row) : message :=
  Message ("Saved attachment: " +:+ default "" (file_name item)).

(** Line 43. *)
Definition failure_message (e : exn) : message :=
  ErrorMessage ("Error while extracting attachments: " +:+ description e).

(** Line 25: the projection asked of the cursor. *)
Definition cursor_fields : list string := ["DATA"; "ATT_NAME"; "ATTACHMENTID"].

(** The rows the cursor over a table yields before it ends or fails. *)
Definition table_rows (inTable : string) : list row :=
  match open_cursor inTable cursor_fields with
  | inr c => rows_of c
  | inl _ => []
  end.

(** The same as a cursor: a cursor that cannot be opened is one that
    raises before its first row. *)
Definition table_cursor (inTable : string) : cursor :=
  match open_cursor inTable cursor_fields with
  | inr c => c
  | inl e => CursorError e
  end.

(** The world in which line 21 calls [os.makedirs]: lines 15 and 20 have
    asked their two questions and changed nothing else. *)
Definition at_makedirs (inTable fileLocation : string) (w : world) : world :=
  record_call (call_path_exists fileLocation)
    (record_call (call_Exists inTable) w).

(** The world after lines 21-22 when the creation succeeded. *)
Definition directory_made (inTable fileLocation : string) (w : world) : world :=
  emit (Message ("Created directory: " +:+ fileLocation))
    (set_dirs (dirs w ∪ list_to_set (path_ancestors fileLocation)
               ∪ {[fileLocation]})
       (record_call (call_makedirs fileLocation)
          (at_makedirs inTable fileLocation w))).

(** The world in which the loop of line 26 starts, when lines 15-25 raised
    nothing. *)
Definition loop_entry (inTable fileLocation : string) (w : world) : world :=
  record_call (call_SearchCursor inTable cursor_fields)
    (if path_present w fileLocation then at_makedirs inTable fileLocation w
     else directory_made inTable fileLocation w).

(** Lines 25-40 from the world [w0] in which the cursor is asked for. *)
Definition run_cursor (inTable fileLocation : string) (w0 : world) :
    outcome unit * world :=
  let w1 := record_call (call_SearchCursor inTable cursor_fields) w0 in
  match open_cursor inTable cursor_fields with
  | inl e => (Raised e, w1)
  | inr c => for_in c (loop_body fileLocation) w1
  end.

(** How many of the calls are calls of [open]. *)
Definition opens (cs : list call) : nat := length (filter is_open cs).

(** The footprint of one pass: which parts of the world it can change. *)
Record body_effect (fileLocation : string) (item : row) (w : world)
    (res : outcome unit) (w' : world) : Prop := {
  body_dirs : dirs w' = dirs w;
  body_handles : handles w' = handles w;
  body_log :
    log w' = log w ++ (if res is Returned _ then [saved_message item] else []);
  body_calls :
    ∃ cs, calls w' = calls w ++ cs
          ∧ opens cs ≤ 1 ∧ (if res is Returned _ then opens cs = 1 else True);
  body_frame :
    ∀ p, output_path fileLocation item ≠ Some p → files w' !! p = files w !! p;
  body_keeps : ∀ p, is_Some (files w !! p) → is_Some (files w' !! p);
  body_saved :
    if res is Returned _ then
      ∃ p data, output_path fileLocation item = Some p
                ∧ DATA item = Some data ∧ files w' !! p = Some data
    else True;
}.

(** The footprint of the whole loop.  [k] is the number of rows whose pass
    ran to the end; the row at position [k], if there is one, is the row
    on which the loop stopped. *)
Record loop_effect (fileLocation : string) (c : cursor) (w : world)
    (res : outcome unit) (w' : world) (k : nat) (cs : list call) : Prop := {
  loop_dirs : dirs w' = dirs w;
  loop_handles : handles w' = handles w;
  loop_bound : k ≤ length (rows_of c);
  loop_complete : if res is Returned _ then k = length (rows_of c) else True;
  loop_log : log w' = log w ++ map saved_message (take k (rows_of c));
  loop_calls : calls w' = calls w ++ cs;
  loop_opens : opens cs ≤ k + (if res is Returned _ then 0 else 1);
  loop_keeps : ∀ p, is_Some (files w !! p) → is_Some (files w' !! p);
  loop_frame :
    ∀ p, (∀ j r, j ≤ k → rows_of c !! j = Some r →
                 output_path fileLocation r ≠ Some p) →
         files w' !! p = files w !! p;
  loop_saved :
    ∀ i r, i < k → rows_of c !! i = Some r →
      ∃ p data, output_path fileLocation r = Some p ∧ DATA r = Some data ∧
        ((∀ j r', i < j → j ≤ k → rows_of c !! j = Some r' →
                  output_path fileLocation r' ≠ Some p) →
         files w' !! p = Some data);
  loop_exists :
    ∀ i r, i < k → rows_of c !! i = Some r →
      ∃ p, output_path fileLocation r = Some p ∧ is_Some (files w' !! p);
}.

(** Line 22. *)
Definition created_message (fileLocation : string) : message :=
  Message ("Created directory: " +:+ fileLocation).

(** What the block under [try] has done when it ends, one way or the
    other, on a table that exists.  [k] counts the rows whose pass ran to
    the end. *)
Record block_effect (inTable fileLocation : string) (w : world)
    (res : outcome unit) (w1 : world) (k : nat) : Prop := {
  block_bound : k ≤ length (table_rows inTable);
  block_complete :
    if res is Returned _ then k = length (table_rows inTable) else True;
  block_log :
    ∃ created, (created = [] ∨ created = [created_message fileLocation])
      ∧ log w1 = log w ++ created
                 ++ map saved_message (take k (table_rows inTable));
  block_calls :
    ∃ cs, calls w1 = calls w ++ call_Exists inTable :: cs
          ∧ opens cs ≤ k + (if res is Returned _ then 0 else 1);
  block_handles : handles w1 = handles w;
  block_dirs : dirs w ⊆ dirs w1;
  block_keeps : ∀ p, is_Some (files w !! p) → is_Some (files w1 !! p);
  block_frame :
    ∀ p, (∀ j r, j ≤ k → table_rows inTable !! j = Some r →
                 output_path fileLocation r ≠ Some p) →
         files w1 !! p = files w !! p;
  block_saved :
    ∀ i r, i < k → table_rows inTable !! i = Some r →
      ∃ p data, output_path fileLocation r = Some p ∧ DATA r = Some data ∧
        ((∀ j r', i < j → j ≤ k → table_rows inTable !! j = Some r' →
                  output_path fileLocation r' ≠ Some p) →
         files w1 !! p = Some data);
  block_exists :
    ∀ i r, i < k → table_rows inTable !! i = Some r →
      ∃ p, output_path fileLocation r = Some p ∧ is_Some (files w1 !! p);
}.

End Derived.

(** ** A concrete host, for running the script on examples *)

Module Scenario.

(** POSIX [os.path.join] for two components. *)
Definition ends_with_slash (a : string) : bool :=
  match rev (list_ascii_of_string a) with
  | c :: _ => bool_decide (c = "/"%char)
  | [] => false
  end.

Definition posix_join (a b : string) : string :=
  match b with
  | String "/" _ => b
  | _ => if truth a && negb (ends_with_slash a) then a +:+ "/" +:+ b
         else a +:+ b
  end.

(** The proper ancestors of a path, outermost first: every non-empty
    prefix that ends just before a separator. *)
Fixpoint ancestors_from (seen : string) (rest : string) : list string :=
  match rest with
  | EmptyString => []
  | String c rest' =>
      (if bool_decide (c = "/"%char) && truth seen then [seen] else [])
      ++ ancestors_from (seen +:+ String c EmptyString) rest'
  end.

Definition posix_ancestors (path : string) : list string :=
  ancestors_from "" path.

(** A host with one table [table] read through cursor [c], the two tool
    parameters [p0] and [p1], and the given fault oracles. *)
Definition scripted (p0 p1 table : string) (c : exn + cursor)
    (mk : world → string → option (exn * nat))
    (op : world → string → option exn)
    (wr : world → string → list byte → option (exn * nat)) : Host := {|
  parameter_text i := match i with 0 => p0 | 1 => p1 | _ => "" end;
  dataset_exists t := bool_decide (t = table);
  open_cursor t _ := if bool_decide (t = table) then c
                     else inl (Exception "cannot open the table");
  path_join := posix_join;
  path_ancestors := posix_ancestors;
  makedirs_fault := mk;
  open_fault := op;
  write_fault := wr;
|}.

(** No call ever fails. *)
Definition reliable (p0 p1 table : string) (c : cursor) : Host :=
  scripted p0 p1 table (inr c) (λ _ _, None) (λ _ _, None) (λ _ _ _, None).

Definition blank : world := World ∅ ∅ [] [] [].

(** The two rows of the specification's scenario. *)
Definition jpg_a : row :=
  Row (Some ["001"%byte; "002"%byte]) (Some "a.jpg") (id_int 1).
Definition jpg_b : row := Row (Some []) (Some "b.jpg") (id_int 2).

(** Two rows that derive the same file name with different payloads. *)
Definition dup_first : row :=
  Row (Some ["001"%byte]) (Some "a.jpg") (id_int 1).
Definition dup_second : row :=
  Row (Some ["002"%byte]) (Some "a.jpg") (id_int 1).

(** A row whose BLOB cell is null. *)
Definition null_row : row := Row None (Some "c.jpg") (id_int 3).

Definition photos : string := "photos__ATTACH".

(** A host on which writing to [path] fails before any byte is stored. *)
Definition disk_full_at (path : string) (c : cursor) : Host :=
  scripted photos "out" photos (inr c) (λ _ _, None) (λ _ _, None)
    (λ _ p _, if bool_decide (p = path)
              then Some (Exception "[Errno 28] No space left on device", 0)
              else None).

(** A row whose name cell is null. *)
Definition unnamed_row : row := Row (Some ["003"%byte]) None (id_int 4).

(** A host on which [path] cannot be opened. *)
Definition locked_at (path : string) (c : cursor) : Host :=
  scripted photos "out" photos (inr c) (λ _ _, None)
    (λ _ p, if bool_decide (p = path)
            then Some (Exception "[Errno 13] Permission denied")
            else None)
    (λ _ _ _, None).

(** A host on which writing to [path] fails after [n] bytes. *)
Definition disk_fills_after (n : nat) (path : string) (c : cursor) : Host :=
  scripted photos "out" photos (inr c) (λ _ _, None) (λ _ _, None)
    (λ _ p _, if bool_decide (p = path)
              then Some (Exception "[Errno 28] No space left on device", n)
              else None).

(** A host whose destination cannot be made. *)
Definition read_only (c : cursor) : Host :=
  scripted photos "out/photos" photos (inr c)
    (λ _ _, Some (Exception "[Errno 30] Read-only file system", 0))
    (λ _ _, None) (λ _ _ _, None).

(** A host whose table lacks a column the cursor asks for. *)
Definition missing_column : Host :=
  scripted photos "out" photos
    (inl (Exception "Cannot find field 'ATT_NAME'"))
    (λ _ _, None) (λ _ _, None) (λ _ _ _, None).

(** A disk on which [path] already holds [old]. *)
Definition disk_with (path : string) (old : list byte) : world :=
  World {[ "out" ]} {[ path := old ]} [] [] [].

End Scenario.

Import Scenario.

(** ** Basic facts about the world and the sink *)

Lemma new_messages_app w w' l : log w' = log w ++ l → new_messages w w' = l.
Proof. intros E. unfold new_messages. rewrite E. apply drop_app_length. Qed.

Lemma new_calls_app w w' l : calls w' = calls w ++ l → new_calls w w' = l.
Proof. intros E. unfold new_calls. rewrite E. apply drop_app_length. Qed.

Lemma saved_count_app w w' l :
  log w' = log w ++ l → saved_count w w' = length (filter is_saved l).
Proof. intros E. unfold saved_count. by rewrite (new_messages_app _ _ _ E). Qed.

Lemma prefix_app (a s : string) : String.prefix a (a +:+ s) = true.
Proof.
  induction a as [|c a IH]; simpl; [by destruct s|].
  rewrite IH. by destruct (ascii_dec c c).
Qed.

Lemma remove_first_head p hs : remove_first p (p :: hs) = hs.
Proof. simpl. by rewrite decide_True. Qed.

Section Loop.
Context `{Host}.
Variable fileLocation : string.

Lemma is_saved_saved_message r : is_saved (saved_message r) = true.
Proof. apply prefix_app. Qed.

Lemma filter_saved_messages rows :
  filter is_saved (map saved_message rows) = map saved_message rows.
Proof.
  induction rows as [|r rows IH]; [done|].
  simpl map. rewrite filter_cons_True by (by rewrite is_saved_saved_message).
  by rewrite IH.
Qed.

(** What one pass through the loop body does, by cases on the row and on
    the two calls that can fail. *)
Lemma loop_body_cases (item : row) (w : world) :
  match ATT_NAME item with
  | None => loop_body fileLocation item w = (Raised cannot_concatenate, w)
  | Some name =>
      let filename :=
        ("ATT" +:+ format (ATTACHMENTID item) +:+ "_") +:+ name in
      let file_path := os_path_join fileLocation filename in
      match open_fault w file_path with
      | Some e =>
          loop_body fileLocation item w
          = (Raised e, record_call (call_open file_path wb) w)
      | None =>
          let w1 := opened file_path wb w in
          match DATA item with
          | None =>
              loop_body fileLocation item w
              = (Raised no_tobytes, file_exit file_path w1)
          | Some data =>
              match write_fault w1 file_path data with
              | Some (e, k) =>
                  loop_body fileLocation item w
                  = (Raised e,
                     file_exit file_path
                       (set_files (<[file_path := take k data]> (files w1))
                          (record_call (call_write file_path data) w1)))
              | None =>
                  loop_body fileLocation item w
                  = (Returned tt,
                     emit (Message ("Saved attachment: " +:+ filename))
                       (file_exit file_path
                          (set_files (<[file_path := data]> (files w1))
                             (record_call (call_write file_path data) w1))))
              end
          end
      end
  end.
Proof.
  unfold loop_body, with_, str_add, open, tobytes, file_write, AddMessage,
    mbind, py_bind, mret, py_ret, raise.
  destruct (ATT_NAME item) as [name|]; [|done].
  cbv zeta. destruct (open_fault w _) as [e|]; [done|].
  destruct (DATA item) as [data|]; [|done].
  assert (Hc : ∀ p w0, file_contents (opened p wb w0) p = []).
  { intros p w0. unfold file_contents, opened. simpl.
    by rewrite lookup_insert_eq. }
  destruct (write_fault _ _ data) as [[e k]|]; rewrite Hc; reflexivity.
Qed.

Lemma lookup_keeps (m : gmap string (list byte)) p q v :
  is_Some (m !! q) → is_Some (<[p := v]> m !! q).
Proof.
  intros Hq. destruct (decide (p = q)) as [->|Hne].
  - rewrite lookup_insert_eq. eauto.
  - by rewrite lookup_insert_ne.
Qed.

Lemma output_path_named item name :
  ATT_NAME item = Some name →
  output_path fileLocation item
  = Some (os_path_join fileLocation
            (("ATT" +:+ format (ATTACHMENTID item) +:+ "_") +:+ name)).
Proof. intros E. unfold output_path, file_name. by rewrite E. Qed.

Lemma saved_message_named item name :
  ATT_NAME item = Some name →
  saved_message item
  = Message ("Saved attachment: "
             +:+ ("ATT" +:+ format (ATTACHMENTID item) +:+ "_") +:+ name).
Proof. intros E. unfold saved_message, file_name. by rewrite E. Qed.

Lemma loop_body_effect item w res w' :
  loop_body fileLocation item w = (res, w') →
  body_effect fileLocation item w res w'.
Proof.
  intros Hrun. pose proof (loop_body_cases item w) as Hc.
  destruct (ATT_NAME item) as [name|] eqn:Hname.
  2:{ rewrite Hc in Hrun. inversion Hrun; subst.
      split; simpl; try done.
      - by rewrite app_nil_r.
      - exists []. rewrite app_nil_r. unfold opens. simpl. split; [done|lia]. }
  pose proof (output_path_named item name Hname) as Hpath.
  pose proof (saved_message_named item name Hname) as Hmsg.
  cbv zeta in Hc. destruct (open_fault w _) as [e|] eqn:Ho.
  { rewrite Hc in Hrun. inversion Hrun; subst.
    split; simpl; try done.
    - by rewrite app_nil_r.
    - eexists. split; [done|]. unfold opens. simpl. lia. }
  destruct (DATA item) as [data|] eqn:Hd.
  2:{ rewrite Hc in Hrun. inversion Hrun; subst.
      split; rewrite ?Hpath; simpl; try done.
      - by rewrite decide_True.
      - by rewrite app_nil_r.
      - eexists. split; [by rewrite <- app_assoc|]. unfold opens. simpl. lia.
      - intros p Hp. rewrite lookup_insert_ne; [done|congruence].
      - intros p Hp. by apply lookup_keeps. }
  destruct (write_fault _ _ data) as [[e k]|] eqn:Hw;
    rewrite Hc in Hrun; inversion Hrun; subst.
  - split; rewrite ?Hpath; simpl; try done.
    + by rewrite decide_True.
    + by rewrite app_nil_r.
    + eexists. split; [by rewrite <- !app_assoc|]. unfold opens. simpl. lia.
    + intros p Hp. rewrite !lookup_insert_ne; [done|congruence..].
    + intros p Hp. by do 2 apply lookup_keeps.
  - split; rewrite ?Hpath, ?Hmsg; simpl; try done.
    + by rewrite decide_True.
    + eexists. split; [by rewrite <- !app_assoc|]. unfold opens. simpl. lia.
    + intros p Hp. rewrite !lookup_insert_ne; [done|congruence..].
    + intros p Hp. by do 2 apply lookup_keeps.
    + eexists _, data. split; [done|]. split; [done|].
      by rewrite lookup_insert_eq.
Qed.

Lemma opens_app cs cs' : opens (cs ++ cs') = opens cs + opens cs'.
Proof. unfold opens. by rewrite filter_app, length_app. Qed.

Lemma for_in_effect c : ∀ w res w',
  for_in c (loop_body fileLocation) w = (res, w') →
  ∃ k cs, loop_effect fileLocation c w res w' k cs.
Proof.
  induction c as [|r0 rest IH|e]; intros w res w' Hrun.
  - inversion Hrun; subst. exists 0, [].
    split; simpl; rewrite ?app_nil_r; try done; lia.
  - simpl in Hrun. unfold mbind, py_bind in Hrun.
    destruct (loop_body fileLocation r0 w) as [[[]|e] w1] eqn:Hb.
    + apply loop_body_effect in Hb
        as [Bd Bh Bl [cs0 (Bc & Bo & Bo1)] Bf Bk Bs].
      destruct (IH _ _ _ Hrun)
        as (k & cs & [Ld Lh Lb Lc Ll Lcs Lo Lk Lf Ls Le]).
      exists (S k), (cs0 ++ cs). split; simpl.
      * congruence.
      * congruence.
      * lia.
      * destruct res; [lia|done].
      * rewrite Ll, Bl. by rewrite <- app_assoc.
      * rewrite Lcs, Bc. by rewrite <- app_assoc.
      * rewrite opens_app. lia.
      * intros p Hp. by apply Lk, Bk.
      * intros p Hp. rewrite Lf.
        -- apply Bf. apply (Hp 0); [lia|done].
        -- intros j r Hj Hr. apply (Hp (S j)); [lia|done].
      * intros [|i] r Hi Hr; simpl in Hr.
        -- inversion Hr; subst r. destruct Bs as (p & data & Hp & Hd & Hf).
           exists p, data. split; [done|]. split; [done|]. intros Hlater.
           rewrite Lf; [done|]. intros j r' Hj Hr'.
           apply (Hlater (S j)); [lia|lia|done].
        -- destruct (Ls i r) as (p & data & Hp & Hd & Hf); [lia|done|].
           exists p, data. split; [done|]. split; [done|]. intros Hlater.
           apply Hf. intros j r' Hij Hj Hr'.
           apply (Hlater (S j)); [lia|lia|done].
      * intros [|i] r Hi Hr; simpl in Hr.
        -- inversion Hr; subst r. destruct Bs as (p & data & Hp & Hd & Hf).
           exists p. split; [done|]. apply Lk. rewrite Hf. eauto.
        -- apply (Le i r); [lia|done].
    + inversion Hrun; subst.
      apply loop_body_effect in Hb
        as [Bd Bh Bl [cs0 (Bc & Bo & Bo1)] Bf Bk Bs].
      rewrite app_nil_r in Bl.
      exists 0, cs0. split; simpl; rewrite ?app_nil_r; try done; try lia.
      intros p Hp. apply Bf. apply (Hp 0); [lia|done].
  - inversion Hrun; subst. exists 0, [].
    split; simpl; rewrite ?app_nil_r; try done; try lia.
    unfold opens. simpl. lia.
Qed.

End Loop.

(** ** The block under [try], by cases *)

Section Run.
Context `{Host}.
Variables inTable fileLocation : string.

Lemma try_block_unfold (w : world) :
  try_block inTable fileLocation w =
  if dataset_exists inTable then
    let wa := at_makedirs inTable fileLocation w in
    if path_present w fileLocation then run_cursor inTable fileLocation wa
    else
      match makedirs_fault wa fileLocation with
      | Some (e, k) =>
          (Raised e,
           set_dirs
             (dirs w ∪ list_to_set (take k (path_ancestors fileLocation)))
             (record_call (call_makedirs fileLocation) wa))
      | None =>
          run_cursor inTable fileLocation
            (directory_made inTable fileLocation w)
      end
  else
    (Returned tt,
     emit (ErrorMessage ("Input table " +:+ inTable +:+ " does not exist."))
       (record_call (call_Exists inTable) w)).
Proof.
  assert (Hcur : ∀ w0,
    with_ (SearchCursor inTable ["DATA"; "ATT_NAME"; "ATTACHMENTID"])
      cursor_exit (λ cursor, for_in cursor (loop_body fileLocation)) w0
    = run_cursor inTable fileLocation w0).
  { intros w0. unfold with_, run_cursor, SearchCursor, mbind, py_bind,
      cursor_exit, cursor_fields.
    destruct (open_cursor inTable _) as [e|c]; [done|].
    by destruct (for_in c _ _). }
  unfold try_block, Exists, os_path_exists, os_makedirs, AddMessage, AddError,
    mbind, py_bind, mret, py_ret.
  destruct (dataset_exists inTable); cbn [negb]; cbv beta iota; [|done].
  change (path_present (record_call (call_Exists inTable) w) fileLocation)
    with (path_present w fileLocation).
  destruct (path_present w fileLocation); cbn [negb]; cbv beta iota.
  - apply Hcur.
  - fold (at_makedirs inTable fileLocation w).
    destruct (makedirs_fault _ fileLocation) as [[e k]|]; [done|].
    apply Hcur.
Qed.

Lemma table_rows_cursor : table_rows inTable = rows_of (table_cursor inTable).
Proof.
  unfold table_rows, table_cursor. by destruct (open_cursor inTable _).
Qed.

Lemma run_cursor_loop (w0 : world) :
  run_cursor inTable fileLocation w0
  = for_in (table_cursor inTable) (loop_body fileLocation)
      (record_call (call_SearchCursor inTable cursor_fields) w0).
Proof.
  unfold run_cursor, table_cursor. by destruct (open_cursor inTable _).
Qed.

(** Either the directory could not be made, or the loop ran from
    [loop_entry]. *)
Lemma try_block_cases (w : world) :
  dataset_exists inTable = true →
  (∃ e k, path_present w fileLocation = false
     ∧ makedirs_fault (at_makedirs inTable fileLocation w) fileLocation
       = Some (e, k)
     ∧ try_block inTable fileLocation w
       = (Raised e,
          set_dirs
            (dirs w ∪ list_to_set (take k (path_ancestors fileLocation)))
            (record_call (call_makedirs fileLocation)
               (at_makedirs inTable fileLocation w))))
  ∨ ((path_present w fileLocation = true
      ∨ makedirs_fault (at_makedirs inTable fileLocation w) fileLocation = None)
     ∧ try_block inTable fileLocation w
       = for_in (table_cursor inTable) (loop_body fileLocation)
           (loop_entry inTable fileLocation w)).
Proof.
  intros Hex. rewrite try_block_unfold, Hex. cbv zeta. unfold loop_entry.
  destruct (path_present w fileLocation).
  - right. split; [by left|]. apply run_cursor_loop.
  - destruct (makedirs_fault _ fileLocation) as [[e k]|] eqn:Hf.
    + left. by exists e, k.
    + right. split; [by right|]. apply run_cursor_loop.
Qed.

(** What lines 15-25 leave behind when they raise nothing. *)
Lemma loop_entry_effect (w : world) :
  let wl := loop_entry inTable fileLocation w in
  files wl = files w ∧ handles wl = handles w ∧ dirs w ⊆ dirs wl
  ∧ (path_present w fileLocation = false → fileLocation ∈ dirs wl)
  ∧ (∃ created,
       log wl = log w ++ created
       ∧ created = (if path_present w fileLocation then []
                    else [Message ("Created directory: " +:+ fileLocation)]))
  ∧ (∃ cs, calls wl = calls w ++ call_Exists inTable :: cs ∧ opens cs = 0).
Proof.
  unfold loop_entry, directory_made, at_makedirs.
  destruct (path_present w fileLocation); simpl.
  - split; [done|]. split; [done|]. split; [done|]. split; [done|]. split.
    + eexists. split; [|done]. by rewrite app_nil_r.
    + eexists. split; [by rewrite <- !app_assoc|]. done.
  - split; [done|]. split; [done|]. split; [set_solver|].
    split; [set_solver|]. split.
    + eexists. by split.
    + eexists. split; [by rewrite <- !app_assoc|]. done.
Qed.

Lemma try_block_effect (w : world) res w1 :
  dataset_exists inTable = true →
  try_block inTable fileLocation w = (res, w1) →
  ∃ k, block_effect inTable fileLocation w res w1 k.
Proof.
  intros Hex Hrun.
  destruct (try_block_cases w Hex) as [(e & n & Hp & Hf & Hb)|[_ Hb]];
    rewrite Hb in Hrun.
  - inversion Hrun; subst. exists 0. split; simpl; try done; try lia.
    + exists []. split; [by left|]. by rewrite app_nil_r.
    + eexists. unfold at_makedirs. simpl. split; [by rewrite <- !app_assoc|].
      unfold opens. simpl. lia.
    + set_solver.
  - destruct (for_in_effect _ _ _ _ _ Hrun)
      as (k & cs & [Ld Lh Lb Lc Ll Lcs Lo Lk Lf Ls Le]).
    destruct (loop_entry_effect w)
      as (Ef & Eh & Ed & _ & (created & El & Ec) & (cs0 & Ecs & Eo)).
    rewrite <- table_rows_cursor in *.
    exists k. split; try done.
    + exists created. split.
      * rewrite Ec. unfold created_message.
        destruct (path_present w fileLocation); [by left|by right].
      * rewrite Ll, El. by rewrite <- app_assoc.
    + exists (cs0 ++ cs). split.
      * rewrite Lcs, Ecs. by rewrite <- app_assoc.
      * rewrite opens_app. lia.
    + congruence.
    + rewrite Ld. done.
    + intros p Hp. apply Lk. by rewrite Ef.
    + intros p Hp. rewrite Lf; [by rewrite Ef|done].
Qed.

Lemma extract_unfold (w : world) :
  extract_attachments inTable fileLocation w =
  match try_block inTable fileLocation w with
  | (Returned _, w1) => (Returned tt, w1)
  | (Raised e, w1) => (Returned tt, emit (failure_message e) w1)
  end.
Proof.
  unfold extract_attachments, try_except.
  by destruct (try_block inTable fileLocation w) as [[[]|e] w1].
Qed.

Lemma created_not_saved : is_saved (created_message fileLocation) = false.
Proof. reflexivity. Qed.

Lemma saved_count_shape (w w' : world) created k errs :
  log w' = log w ++ created
           ++ map saved_message (take k (table_rows inTable)) ++ errs →
  created = [] ∨ created = [created_message fileLocation] →
  (errs = [] ∨ ∃ e, errs = [failure_message e]) →
  k ≤ length (table_rows inTable) →
  saved_count w w' = k.
Proof.
  intros Hlog Hc He Hk. rewrite (saved_count_app _ _ _ Hlog).
  rewrite !filter_app, !length_app, filter_saved_messages.
  rewrite length_map, length_take.
  assert (length (filter is_saved created) = 0) as ->.
  { destruct Hc as [->| ->]; [done|].
    rewrite filter_cons_False; [done|].
    intros Hs. rewrite created_not_saved in Hs. destruct Hs. }
  assert (length (filter is_saved errs) = 0) as ->.
  { destruct He as [->|[e ->]]; [done|].
    rewrite filter_cons_False; [done|]. intros []. }
  lia.
Qed.

(** The whole call on a table that exists: the block's effect, the one
    message the handler may add, and the count of rows reported saved. *)
Lemma extract_effect (w : world) :
  dataset_exists inTable = true →
  ∃ res w1 k,
    try_block inTable fileLocation w = (res, w1)
    ∧ block_effect inTable fileLocation w res w1 k
    ∧ extract_attachments inTable fileLocation w
      = (Returned tt,
         if res is Raised e then emit (failure_message e) w1 else w1)
    ∧ saved_count w (extract_attachments inTable fileLocation w).2 = k.
Proof.
  intros Hex. rewrite extract_unfold.
  destruct (try_block inTable fileLocation w) as [res w1] eqn:Hrun.
  destruct (try_block_effect w res w1 Hex Hrun) as [k Hk].
  exists res, w1, k. split; [done|]. split; [done|].
  destruct Hk as [Kb _ (created & Kc & Kl) _ _ _ _ _ _ _].
  destruct res as [[]|e]; (split; [done|]); simpl.
  - apply (saved_count_shape _ _ created k []); [|done|by left|done].
    by rewrite app_nil_r.
  - apply (saved_count_shape _ _ created k [failure_message e]);
      [|done|by eauto|done].
    simpl. rewrite Kl. by rewrite <- !app_assoc.
Qed.

End Run.

(** ** Properties of the specification *)

Section Guards.
Context `{Host}.

(** Every call of [extract_attachments] starts by asking the host whether
    the table exists (line 15). *)
Lemma extract_first_call (inTable fileLocation : string) (w : world) :
  ∃ cs, new_calls w (extract_attachments inTable fileLocation w).2
        = call_Exists inTable :: cs.
Proof.
  destruct (dataset_exists inTable) eqn:Hex.
  - destruct (extract_effect inTable fileLocation w Hex)
      as (res & w1 & k & _ & [_ _ _ (cs & Hcs & _) _ _ _ _ _ _] & -> & _).
    exists cs. apply new_calls_app. by destruct res.
  - rewrite extract_unfold, try_block_unfold, Hex. exists [].
    by apply new_calls_app.
Qed.

(** C2.  When the source table does not exist, [extract_attachments]
    returns after reporting one error that names the table; the only call
    it has made is the existence check, so no directory is created, no
    cursor is opened and no file is written. *)
Theorem missing_table_no_side_effects (inTable fileLocation : string)
    (w : world) :
  dataset_exists inTable = false →
  ∃ w', extract_attachments inTable fileLocation w = (Returned tt, w')
    ∧ new_messages w w'
      = [ErrorMessage ("Input table " +:+ inTable +:+ " does not exist.")]
    ∧ new_calls w w' = [call_Exists inTable]
    ∧ dirs w' = dirs w ∧ files w' = files w ∧ handles w' = handles w.
Proof.
  intros Hex. rewrite extract_unfold, try_block_unfold, Hex.
  eexists. split; [done|].
  split; [by apply new_messages_app|].
  split; [by apply new_calls_app|]. done.
Qed.

(** C3.  When either tool parameter is empty, the script reports one error
    and does nothing else: the only calls made are the two parameter
    reads, and the disk and the open handles are as before.  The function
    [extract_attachments] is not entered: each of its calls begins with
    the existence check, and no such call was made. *)
Theorem empty_parameter_no_work (w : world) :
  parameter_text 0 = "" ∨ parameter_text 1 = "" →
  ∃ w', main w = (Returned tt, w')
    ∧ new_messages w w'
      = [ErrorMessage "Input table and file location are required."]
    ∧ new_calls w w'
      = [call_GetParameterAsText 0; call_GetParameterAsText 1]
    ∧ dirs w' = dirs w ∧ files w' = files w ∧ handles w' = handles w
    ∧ (∀ inTable fileLocation w0,
         ∃ cs, new_calls w0 (extract_attachments inTable fileLocation w0).2
               = call_Exists inTable :: cs).
Proof.
  intros Hempty.
  assert (Hguard : negb (truth (parameter_text 0))
                   || negb (truth (parameter_text 1)) = true).
  { destruct Hempty as [-> | ->]; [done|]. apply orb_true_r. }
  unfold main, GetParameterAsText, AddError, mbind, py_bind.
  rewrite Hguard. eexists. split; [done|].
  split; [by apply new_messages_app|].
  split; [apply new_calls_app; simpl; by rewrite <- app_assoc|].
  repeat (split; [done|]). apply extract_first_call.
Qed.

End Guards.

(** C2 at a host that does not know the table asked for. *)
Lemma missing_table_no_side_effects_witness :
  let host := reliable "nowhere" "out" "photos__ATTACH" StopIteration in
  @dataset_exists host "nowhere" = false
  ∧ ∃ w', @extract_attachments host "nowhere" "out" blank = (Returned tt, w')
      ∧ new_messages blank w'
        = [ErrorMessage "Input table nowhere does not exist."]
      ∧ new_calls blank w' = [call_Exists "nowhere"]
      ∧ dirs w' = dirs blank ∧ files w' = files blank
      ∧ handles w' = handles blank.
Proof.
  split; [reflexivity|].
  apply (@missing_table_no_side_effects
           (reliable "nowhere" "out" "photos__ATTACH" StopIteration)
           "nowhere" "out" blank).
  reflexivity.
Defined.

(** C3 at a host whose second parameter is empty. *)
Lemma empty_parameter_no_work_witness :
  let host := reliable "photos__ATTACH" "" "photos__ATTACH" StopIteration in
  (@parameter_text host 0 = "" ∨ @parameter_text host 1 = "")
  ∧ ∃ w', @main host blank = (Returned tt, w')
      ∧ new_messages blank w'
        = [ErrorMessage "Input table and file location are required."]
      ∧ dirs w' = dirs blank ∧ files w' = files blank.
Proof.
  split; [right; reflexivity|].
  destruct (@empty_parameter_no_work
              (reliable "photos__ATTACH" "" "photos__ATTACH" StopIteration)
              blank (or_intror eq_refl))
    as (w' & Hrun & Hmsg & _ & Hd & Hf & _).
  exists w'. repeat split; assumption.
Defined.

Section Directory.
Context `{Host}.

Lemma path_present_dir (w : world) (path : string) :
  path ∈ dirs w → path_present w path = true.
Proof.
  intros Hin. unfold path_present. by rewrite bool_decide_eq_true_2.
Qed.

(** When the table exists and the directory is absent and can be made, the
    loop starts from [directory_made], whatever the cursor then does. *)
Lemma try_block_after_makedirs (inTable fileLocation : string) (w : world) :
  dataset_exists inTable = true →
  path_present w fileLocation = false →
  makedirs_fault (at_makedirs inTable fileLocation w) fileLocation = None →
  try_block inTable fileLocation w
  = for_in (table_cursor inTable) (loop_body fileLocation)
      (record_call (call_SearchCursor inTable cursor_fields)
         (directory_made inTable fileLocation w)).
Proof.
  intros Hex Hp Hf.
  destruct (try_block_cases inTable fileLocation w Hex)
    as [(e & n & _ & Hf' & _)|[_ ->]]; [congruence|].
  unfold loop_entry. by rewrite Hp.
Qed.

(** C5.  On a table that exists, when nothing is at the destination path
    before the call and the creation itself does not fail, the call makes
    the directory and all its ancestors, its first message reports the
    creation, and the directory is there when the call returns, however the
    rest of the run goes. *)
Theorem missing_directory_created (inTable fileLocation : string) (w : world) :
  dataset_exists inTable = true →
  path_present w fileLocation = false →
  makedirs_fault (at_makedirs inTable fileLocation w) fileLocation = None →
  ∃ w', extract_attachments inTable fileLocation w = (Returned tt, w')
    ∧ fileLocation ∈ dirs w'
    ∧ (∀ a, a ∈ path_ancestors fileLocation → a ∈ dirs w')
    ∧ path_present w' fileLocation = true
    ∧ (∃ later, new_messages w w'
                = Message ("Created directory: " +:+ fileLocation) :: later)
    ∧ call_makedirs fileLocation ∈ new_calls w w'.
Proof.
  intros Hex Hp Hf. rewrite extract_unfold.
  rewrite (try_block_after_makedirs _ _ _ Hex Hp Hf).
  destruct (for_in _ _ _) as [res w1] eqn:Hrun.
  destruct (for_in_effect _ _ _ _ _ Hrun)
    as (k & cs & [Ld Lh _ _ Ll Lcs _ _ _ _ _]).
  simpl in Ld, Ll, Lcs.
  assert (Hdir : fileLocation ∈ dirs w1).
  { rewrite Ld. apply elem_of_union_r. by apply elem_of_singleton. }
  assert (Hanc : ∀ a, a ∈ path_ancestors fileLocation → a ∈ dirs w1).
  { intros a Ha. rewrite Ld. apply elem_of_union_l, elem_of_union_r.
    by apply elem_of_list_to_set. }
  assert (Hcalls : call_makedirs fileLocation ∈ new_calls w w1).
  { erewrite new_calls_app; [|rewrite Lcs, <- !app_assoc; reflexivity].
    do 2 apply list_elem_of_further. apply list_elem_of_here. }
  destruct res as [[]|e]; eexists; (split; [reflexivity|]);
    (split; [exact Hdir|]); (split; [exact Hanc|]);
    (split; [by apply path_present_dir|]); (split; [|exact Hcalls]);
    eexists; apply new_messages_app; simpl; rewrite Ll, <- !app_assoc;
    reflexivity.
Qed.

(** C6.  On a table that exists and has no rows, the call returns without
    reporting an error; the destination exists afterwards, having been made
    if it was missing (and makeable); no file is opened and the files on
    disk are those from before. *)
Theorem empty_table_only_makes_directory (inTable fileLocation : string)
    (w : world) :
  dataset_exists inTable = true →
  open_cursor inTable cursor_fields = inr StopIteration →
  (path_present w fileLocation = false →
   makedirs_fault (at_makedirs inTable fileLocation w) fileLocation = None) →
  ∃ w', extract_attachments inTable fileLocation w = (Returned tt, w')
    ∧ path_present w' fileLocation = true
    ∧ (path_present w fileLocation = false → fileLocation ∈ dirs w')
    ∧ files w' = files w
    ∧ filter is_error (new_messages w w') = []
    ∧ opens (new_calls w w') = 0.
Proof.
  intros Hex Hcur Hmk. rewrite extract_unfold.
  assert (Hrun : try_block inTable fileLocation w
                 = (Returned tt, loop_entry inTable fileLocation w)).
  { destruct (try_block_cases inTable fileLocation w Hex)
      as [(e & n & Hp & Hf & _)|[_ ->]].
    - rewrite (Hmk Hp) in Hf. discriminate.
    - unfold table_cursor. by rewrite Hcur. }
  rewrite Hrun. eexists. split; [reflexivity|].
  destruct (loop_entry_effect inTable fileLocation w)
    as (Ef & _ & _ & Ed & (created & El & Ec) & (cs & Ecs & Eo)).
  split; [|split; [exact Ed|split; [exact Ef|split]]].
  - destruct (path_present w fileLocation) eqn:Hp.
    + unfold loop_entry. by rewrite Hp.
    + by apply path_present_dir, Ed.
  - rewrite (new_messages_app _ _ _ El), Ec.
    by destruct (path_present w fileLocation).
  - by rewrite (new_calls_app _ _ _ Ecs).
Qed.

End Directory.

(** C5 on a table of two photographs, starting from an empty disk. *)
Lemma missing_directory_created_witness :
  let host := reliable "photos__ATTACH" "out/photos" "photos__ATTACH"
                (Next jpg_a (Next jpg_b StopIteration)) in
  @dataset_exists host "photos__ATTACH" = true
  ∧ @path_present blank "out/photos" = false
  ∧ @makedirs_fault host (at_makedirs "photos__ATTACH" "out/photos" blank)
      "out/photos" = None
  ∧ ∃ w', @extract_attachments host "photos__ATTACH" "out/photos" blank
          = (Returned tt, w')
      ∧ "out/photos" ∈ dirs w'
      ∧ (∀ a, a ∈ @path_ancestors host "out/photos" → a ∈ dirs w')
      ∧ path_present w' "out/photos" = true.
Proof.
  repeat (split; [reflexivity|]).
  destruct (@missing_directory_created
              (reliable "photos__ATTACH" "out/photos" "photos__ATTACH"
                 (Next jpg_a (Next jpg_b StopIteration)))
              "photos__ATTACH" "out/photos" blank eq_refl eq_refl eq_refl)
    as (w' & Hrun & Hd & Ha & Hp & _).
  exists w'. repeat split; assumption.
Defined.

(** C6 on an empty table, starting from an empty disk. *)
Lemma empty_table_only_makes_directory_witness :
  let host := reliable "photos__ATTACH" "out" "photos__ATTACH" StopIteration in
  @dataset_exists host "photos__ATTACH" = true
  ∧ @open_cursor host "photos__ATTACH" cursor_fields = inr StopIteration
  ∧ (@path_present blank "out" = false →
     @makedirs_fault host (at_makedirs "photos__ATTACH" "out" blank) "out"
     = None)
  ∧ ∃ w', @extract_attachments host "photos__ATTACH" "out" blank
          = (Returned tt, w')
      ∧ path_present w' "out" = true
      ∧ files w' = files blank
      ∧ filter is_error (new_messages blank w') = [].
Proof.
  repeat (split; [reflexivity|]).
  destruct (@empty_table_only_makes_directory
              (reliable "photos__ATTACH" "out" "photos__ATTACH" StopIteration)
              "photos__ATTACH" "out" blank eq_refl eq_refl (λ _, eq_refl))
    as (w' & Hrun & Hp & _ & Hf & He & _).
  exists w'. repeat split; assumption.
Defined.

Section Rows.
Context `{Host}.
Variables inTable fileLocation : string.

(** Without the table nothing is reported saved. *)
Lemma saved_count_missing_table (w : world) :
  dataset_exists inTable = false →
  saved_count w (extract_attachments inTable fileLocation w).2 = 0.
Proof.
  intros Hex. rewrite extract_unfold, try_block_unfold, Hex. simpl.
  by erewrite saved_count_app; [|reflexivity].
Qed.

(** The disk after the call is the disk the block under [try] left. *)
Lemma extract_files (w : world) res w1 :
  try_block inTable fileLocation w = (res, w1) →
  files (extract_attachments inTable fileLocation w).2 = files w1.
Proof. intros Hrun. rewrite extract_unfold, Hrun. by destruct res. Qed.

(** C1, amended.  A row that the call reported saved has a file at the
    destination directory joined with "ATT" + id + "_" + name when the call
    returns; the file holds exactly the row's payload (the empty payload
    included) provided no later row that the run reached derives the same
    path. *)
Theorem saved_row_on_disk (w : world) (i : nat) (r : row)
    (name : string) (data : list byte) :
  table_rows inTable !! i = Some r →
  ATT_NAME r = Some name →
  DATA r = Some data →
  let w' := (extract_attachments inTable fileLocation w).2 in
  let file_path :=
    os_path_join fileLocation
      (("ATT" +:+ format (ATTACHMENTID r) +:+ "_") +:+ name) in
  i < saved_count w w' →
  is_Some (files w' !! file_path)
  ∧ ((∀ j r', i < j → j ≤ saved_count w w' →
              table_rows inTable !! j = Some r' →
              output_path fileLocation r' ≠ Some file_path) →
     files w' !! file_path = Some data).
Proof.
  intros Hr Hname Hdata w' file_path Hi. subst w'.
  destruct (dataset_exists inTable) eqn:Hex.
  2:{ rewrite (saved_count_missing_table _ Hex) in Hi. lia. }
  destruct (extract_effect inTable fileLocation w Hex)
    as (res & w1 & k & Hrun & Hk & _ & Hcount).
  rewrite Hcount in *. rewrite (extract_files _ _ _ Hrun). split.
  - destruct (block_exists _ _ _ _ _ _ Hk i r Hi Hr) as (p & Hp & Hsome).
    rewrite (output_path_named _ _ _ Hname) in Hp. by injection Hp as <-.
  - intros Hlast.
    destruct (block_saved _ _ _ _ _ _ Hk i r Hi Hr)
      as (p & data' & Hp & Hd & Hfile).
    rewrite (output_path_named _ _ _ Hname) in Hp.
    injection Hp as <-. rewrite Hdata in Hd. injection Hd as <-.
    by apply Hfile.
Qed.

(** C7.  When two rows derive the same file name, both are reported saved,
    and the second is the last row reached that writes to that path, the
    file ends up holding the second row's payload; and up to that point the
    sink has received nothing but the optional directory message and one
    ordinary "Saved attachment" message per row, the two colliding rows
    included. *)
Theorem overwrite_last_wins (w : world) (i j : nat) (r1 r2 : row)
    (name : string) (data2 : list byte) :
  table_rows inTable !! i = Some r1 →
  table_rows inTable !! j = Some r2 →
  i < j →
  file_name r1 = file_name r2 →
  ATT_NAME r2 = Some name →
  DATA r2 = Some data2 →
  let w' := (extract_attachments inTable fileLocation w).2 in
  let file_path :=
    os_path_join fileLocation
      (("ATT" +:+ format (ATTACHMENTID r2) +:+ "_") +:+ name) in
  j < saved_count w w' →
  (∀ j' r', j < j' → j' ≤ saved_count w w' →
            table_rows inTable !! j' = Some r' →
            output_path fileLocation r' ≠ Some file_path) →
  output_path fileLocation r1 = Some file_path
  ∧ files w' !! file_path = Some data2
  ∧ ∃ created later,
      (created = []
       ∨ created = [Message ("Created directory: " +:+ fileLocation)])
      ∧ new_messages w w'
        = created ++ map saved_message (take (S j) (table_rows inTable))
          ++ later.
Proof.
  intros Hr1 Hr2 Hij Hsame Hname Hdata w' file_path Hj Hlast.
  split; [|split].
  - unfold output_path. rewrite Hsame.
    by apply (output_path_named fileLocation r2 name).
  - subst w'. destruct (dataset_exists inTable) eqn:Hex.
    2:{ rewrite (saved_count_missing_table _ Hex) in Hj. lia. }
    destruct (extract_effect inTable fileLocation w Hex)
      as (res & w1 & k & Hrun & Hk & _ & Hcount).
    rewrite Hcount in Hj, Hlast. rewrite (extract_files _ _ _ Hrun).
    destruct (block_saved _ _ _ _ _ _ Hk j r2 Hj Hr2)
      as (p & data' & Hp & Hd & Hfile).
    rewrite (output_path_named _ _ _ Hname) in Hp.
    injection Hp as <-. rewrite Hdata in Hd. injection Hd as <-.
    by apply Hfile.
  - subst w'. destruct (dataset_exists inTable) eqn:Hex.
    2:{ rewrite (saved_count_missing_table _ Hex) in Hj. lia. }
    destruct (extract_effect inTable fileLocation w Hex)
      as (res & w1 & k & Hrun & Hk & Hext & Hcount).
    rewrite Hcount in Hj. rewrite Hext. simpl.
    destruct Hk as [_ _ (created & Hc & Hlog) _ _ _ _ _ _ _].
    assert (Hsplit : take k (table_rows inTable)
                     = take (S j) (table_rows inTable)
                       ++ drop (S j) (take k (table_rows inTable))).
    { rewrite <- (take_drop (S j) (take k (table_rows inTable))) at 1.
      rewrite take_take. by replace (S j `min` k) with (S j) by lia. }
    rewrite Hsplit, map_app in Hlog.
    exists created. destruct res as [[]|e]; eexists; (split; [exact Hc|]);
      apply new_messages_app; simpl; rewrite Hlog, <- ?app_assoc; reflexivity.
Qed.

End Rows.

(** C1 as stated fails on two rows with the same id and name: both are
    reported saved, yet the file does not hold the first row's payload. *)
Lemma collision_loses_first_payload :
  let host := reliable photos "out" photos
                (Next dup_first (Next dup_second StopIteration)) in
  let w' := (@extract_attachments host photos "out" blank).2 in
  @table_rows host photos !! 0 = Some dup_first
  ∧ saved_count blank w' = 2
  ∧ ATT_NAME dup_first = Some "a.jpg"
  ∧ DATA dup_first = Some ["001"%byte]
  ∧ files w' !! (@os_path_join host "out" "ATT1_a.jpg") ≠ Some ["001"%byte].
Proof. vm_compute. repeat split; discriminate. Qed.

(** C1, amended, on the two photographs of the specification's scenario. *)
Lemma saved_row_on_disk_witness :
  let host := reliable photos "out/photos" photos
                (Next jpg_a (Next jpg_b StopIteration)) in
  let w' := (@extract_attachments host photos "out/photos" blank).2 in
  @table_rows host photos !! 0 = Some jpg_a
  ∧ 0 < saved_count blank w'
  ∧ files w' !! "out/photos/ATT1_a.jpg" = Some ["001"%byte; "002"%byte].
Proof.
  split; [reflexivity|]. split; [vm_compute; lia|].
  refine (proj2
    (@saved_row_on_disk
       (reliable photos "out/photos" photos
          (Next jpg_a (Next jpg_b StopIteration)))
       photos "out/photos" blank 0 jpg_a "a.jpg"
       ["001"%byte; "002"%byte] _ _ _ _) _).
  - reflexivity.
  - reflexivity.
  - reflexivity.
  - vm_compute. lia.
  - intros j r' Hj _ Hr'. destruct j as [|[|j]]; [lia| |discriminate].
    injection Hr' as <-. vm_compute. discriminate.
Defined.

(** C7 on the two colliding rows. *)
Lemma overwrite_last_wins_witness :
  let host := reliable photos "out" photos
                (Next dup_first (Next dup_second StopIteration)) in
  let w' := (@extract_attachments host photos "out" blank).2 in
  file_name dup_first = file_name dup_second
  ∧ 1 < saved_count blank w'
  ∧ files w' !! "out/ATT1_a.jpg" = Some ["002"%byte].
Proof.
  split; [reflexivity|]. split; [vm_compute; lia|].
  refine (proj1 (proj2
    (@overwrite_last_wins
       (reliable photos "out" photos
          (Next dup_first (Next dup_second StopIteration)))
       photos "out" blank 0 1 dup_first dup_second "a.jpg" ["002"%byte]
       _ _ _ _ _ _ _ _))).
  - reflexivity.
  - reflexivity.
  - lia.
  - reflexivity.
  - reflexivity.
  - reflexivity.
  - vm_compute. lia.
  - intros j r' Hj _ Hr'. destruct j as [|[|j]]; [lia|lia|discriminate].
Defined.

Section Failure.
Context `{Host}.
Variables inTable fileLocation : string.

(** The block under [try] raises only on a table that exists. *)
Lemma try_block_raised_exists (w : world) e w1 :
  try_block inTable fileLocation w = (Raised e, w1) →
  dataset_exists inTable = true.
Proof.
  intros Hrun. destruct (dataset_exists inTable) eqn:Hex; [done|].
  rewrite try_block_unfold, Hex in Hrun. discriminate.
Qed.

(** C4.  Whenever the block under [try] raises [e], leaving the world [w1]
    (be it from making the directory, from the cursor or from a file),
    [extract_attachments] returns normally with [w1] plus one message; that
    message is the only error of the call, comes last and carries the
    exception's description.  Nothing is rolled back: every row reported
    saved still has its file, and no file that was there before is gone.
    The iteration was abandoned: at most one file was opened beyond those
    reported saved, and a path that only rows after the failing one would
    write to is as it was before the call. *)
Theorem exception_reported_once (w : world) (e : exn) (w1 : world) :
  try_block inTable fileLocation w = (Raised e, w1) →
  let w' :=
    emit (ErrorMessage ("Error while extracting attachments: "
                        +:+ description e)) w1 in
  extract_attachments inTable fileLocation w = (Returned tt, w')
  ∧ (∃ infos,
       new_messages w w'
       = infos ++ [ErrorMessage ("Error while extracting attachments: "
                                 +:+ description e)]
       ∧ filter is_error infos = [])
  ∧ (∀ i r, i < saved_count w w' → table_rows inTable !! i = Some r →
       ∃ p, output_path fileLocation r = Some p ∧ is_Some (files w' !! p))
  ∧ (∀ p, is_Some (files w !! p) → is_Some (files w' !! p))
  ∧ opens (new_calls w w') ≤ saved_count w w' + 1
  ∧ (∀ p, (∀ j r, j ≤ saved_count w w' → table_rows inTable !! j = Some r →
                  output_path fileLocation r ≠ Some p) →
          files w' !! p = files w !! p).
Proof.
  intros Hrun w'. pose proof (try_block_raised_exists _ _ _ Hrun) as Hex.
  destruct (extract_effect inTable fileLocation w Hex)
    as (res & w2 & k & Hrun' & Hk & Hext & Hcount).
  rewrite Hrun in Hrun'. injection Hrun' as <- <-.
  fold (failure_message e) in w'.
  change (extract_attachments inTable fileLocation w = (Returned tt, w'))
    in Hext.
  rewrite Hext in Hcount. simpl in Hcount. rewrite Hcount.
  destruct Hk as [Kb _ (created & Kc & Kl) (cs & Kcs & Ko) _ _ Kk Kf _ Ke].
  split; [exact Hext|]. split; [|split; [exact Ke|split; [exact Kk|split]]].
  - exists (created ++ map saved_message (take k (table_rows inTable))).
    split.
    + apply new_messages_app. simpl. rewrite Kl. by rewrite <- !app_assoc.
    + rewrite filter_app.
      assert (filter is_error created = []) as ->.
      { by destruct Kc as [-> | ->]. }
      clear. induction (take k (table_rows inTable)) as [|r l IH]; [done|].
      simpl. rewrite filter_cons_False; [done|]. intros [].
  - erewrite new_calls_app; [|exact Kcs].
    change (call_Exists inTable :: cs) with ([call_Exists inTable] ++ cs).
    rewrite opens_app. unfold opens at 1. simpl. lia.
  - exact Kf.
Qed.

End Failure.

(** C4 on a disk that fills up while the second of three photographs is
    written: the first file stays, the third row is never opened. *)
Lemma exception_reported_once_witness :
  let host := disk_full_at "out/ATT2_b.jpg"
                (Next jpg_a (Next jpg_b (Next null_row StopIteration))) in
  let e := Exception "[Errno 28] No space left on device" in
  let w1 := (@try_block host photos "out" blank).2 in
  let w' :=
    emit (ErrorMessage ("Error while extracting attachments: "
                        +:+ "[Errno 28] No space left on device")) w1 in
  @try_block host photos "out" blank = (Raised e, w1)
  ∧ @extract_attachments host photos "out" blank = (Returned tt, w')
  ∧ opens (new_calls blank w') ≤ saved_count blank w' + 1.
Proof.
  split; [reflexivity|].
  destruct (@exception_reported_once
              (disk_full_at "out/ATT2_b.jpg"
                 (Next jpg_a (Next jpg_b (Next null_row StopIteration))))
              photos "out" blank
              (Exception "[Errno 28] No space left on device")
              (@try_block
                 (disk_full_at "out/ATT2_b.jpg"
                    (Next jpg_a (Next jpg_b (Next null_row StopIteration))))
                 photos "out" blank).2
              eq_refl)
    as (Hrun & _ & _ & _ & Hopens & _).
  split; [exact Hrun|exact Hopens].
Defined.

Section Files.
Context `{Host}.
Variable fileLocation : string.

(** C8, amended.  For a row with a name whose output path can be opened,
    the path is opened in mode 'wb' (binary write that creates the file or
    empties an existing one; it is not an exclusive open), the calls on the
    file object start with that open and end with its close, and the set of
    open handles after the pass is the one before it, whether the pass
    returned or raised.  When the pass returns, the single write carried
    the entire payload and the file holds exactly it; in every case what
    the file holds is a prefix of the payload. *)
Theorem file_handle_scoped (item : row) (w : world) (name : string) :
  ATT_NAME item = Some name →
  let file_path :=
    os_path_join fileLocation
      (("ATT" +:+ format (ATTACHMENTID item) +:+ "_") +:+ name) in
  open_fault w file_path = None →
  ∃ res w',
    loop_body fileLocation item w = (res, w')
    ∧ handles w' = handles w
    ∧ files (opened file_path wb w) !! file_path = Some []
    ∧ (∃ between,
         new_calls w w'
         = call_open file_path wb :: between ++ [call_close file_path]
         ∧ Forall (λ c, ∃ data, c = call_write file_path data) between)
    ∧ (∃ held, files w' !! file_path = Some held
               ∧ held `prefix_of` default [] (DATA item))
    ∧ (res = Returned tt →
       ∃ data, DATA item = Some data
         ∧ files w' !! file_path = Some data
         ∧ new_calls w w'
           = [call_open file_path wb; call_write file_path data;
              call_close file_path]).
Proof.
  intros Hname file_path Hopen.
  pose proof (loop_body_cases fileLocation item w) as Hc.
  rewrite Hname in Hc. cbv zeta in Hc. fold file_path in Hc.
  rewrite Hopen in Hc.
  assert (Hempty : files (opened file_path wb w) !! file_path = Some [])
    by apply lookup_insert_eq.
  destruct (DATA item) as [data|] eqn:Hdata.
  - destruct (write_fault _ file_path data) as [[e k]|] eqn:Hwrite;
      rewrite Hc; eexists _, _; (split; [reflexivity|]); simpl;
      (split; [by rewrite decide_True|]); (split; [exact Hempty|]).
    + split; [|split; [|done]].
      * exists [call_write file_path data]. split.
        -- apply new_calls_app. simpl. by rewrite <- !app_assoc.
        -- repeat constructor. by exists data.
      * exists (take k data). split; [by rewrite lookup_insert_eq|].
        apply prefix_take.
    + split; [|split].
      * exists [call_write file_path data]. split.
        -- apply new_calls_app. simpl. by rewrite <- !app_assoc.
        -- repeat constructor. by exists data.
      * exists data. by rewrite lookup_insert_eq.
      * intros _. exists data. split; [done|].
        split; [by rewrite lookup_insert_eq|].
        apply new_calls_app. simpl. by rewrite <- !app_assoc.
  - rewrite Hc. eexists _, _.
    split; [reflexivity|]. simpl. split; [by rewrite decide_True|].
    split; [exact Hempty|]. split; [|split; [|done]].
    + exists []. split; [|done].
      apply new_calls_app. simpl. by rewrite <- !app_assoc.
    + exists []. by rewrite lookup_insert_eq.
Qed.

(** C9.  A row whose payload has length zero, on a path that can be opened
    and written, leaves an empty file at its path and is reported saved
    like any other row, and the loop goes on with the rows after it. *)
Theorem empty_payload_row (item : row) (rest : cursor) (w : world)
    (name : string) :
  ATT_NAME item = Some name →
  DATA item = Some [] →
  let filename := ("ATT" +:+ format (ATTACHMENTID item) +:+ "_") +:+ name in
  let file_path := os_path_join fileLocation filename in
  open_fault w file_path = None →
  write_fault (opened file_path wb w) file_path [] = None →
  ∃ w1,
    loop_body fileLocation item w = (Returned tt, w1)
    ∧ files w1 !! file_path = Some []
    ∧ new_messages w w1 = [Message ("Saved attachment: " +:+ filename)]
    ∧ for_in (Next item rest) (loop_body fileLocation) w
      = for_in rest (loop_body fileLocation) w1.
Proof.
  intros Hname Hdata filename file_path Hopen Hwrite.
  pose proof (loop_body_cases fileLocation item w) as Hc.
  rewrite Hname in Hc. cbv zeta in Hc. fold filename file_path in Hc.
  rewrite Hopen, Hdata, Hwrite in Hc.
  eexists. split; [exact Hc|]. split; [|split].
  - simpl. by rewrite lookup_insert_eq.
  - by apply new_messages_app.
  - simpl. unfold mbind, py_bind. by rewrite Hc.
Qed.

End Files.

Section NullPayload.
Context `{Host}.
Variables inTable fileLocation : string.

(** The loop over [pre] followed by [c] is the loop over [pre], then, if
    nothing was raised, the loop over [c]. *)
Lemma for_in_prepend (pre : list row) (c : cursor) (body : row → M unit) :
  ∀ w, for_in (prepend pre c) body w =
       match for_in (prepend pre StopIteration) body w with
       | (Returned _, w1) => for_in c body w1
       | (Raised e, w1) => (Raised e, w1)
       end.
Proof.
  induction pre as [|r pre IH]; intros w; simpl; [done|].
  unfold mbind, py_bind. destruct (body r w) as [[[]|e] w1]; [apply IH|done].
Qed.

(** An exception in the pass over [item] ends the loop there: the rows
    after it play no part. *)
Lemma for_in_stops_at_raise (pre : list row) (item : row) (rest : cursor)
    (body : row → M unit) (w w1 w2 : world) (e : exn) :
  for_in (prepend pre StopIteration) body w = (Returned tt, w1) →
  body item w1 = (Raised e, w2) →
  for_in (prepend pre (Next item rest)) body w = (Raised e, w2).
Proof.
  intros Hpre Hitem. rewrite for_in_prepend, Hpre. simpl.
  unfold mbind, py_bind. by rewrite Hitem.
Qed.

Lemma saved_messages_length (rows : list row) :
  length (filter is_saved (map saved_message rows)) = length rows.
Proof. by rewrite filter_saved_messages, length_map. Qed.

(** C10, amended.  Let the rows before [item] have been processed, leaving
    the world [w], and let [item] have a name and a null payload, its path
    being openable.  Then [open] has already created the file, or emptied
    the one that was there, when the conversion to bytes raises; nothing is
    written to it and its handle is closed; the rows after it are not
    visited; the call reports the catch-all error with the description of
    the failed conversion, and as many rows saved as came before [item].
    So the disk ends with a zero-length file at the row's path. *)
Theorem null_payload_aborts (w0 w : world) (pre : list row) (item : row)
    (rest : cursor) (name : string) :
  dataset_exists inTable = true →
  (path_present w0 fileLocation = false →
   makedirs_fault (at_makedirs inTable fileLocation w0) fileLocation = None) →
  open_cursor inTable cursor_fields = inr (prepend pre (Next item rest)) →
  for_in (prepend pre StopIteration) (loop_body fileLocation)
    (loop_entry inTable fileLocation w0) = (Returned tt, w) →
  ATT_NAME item = Some name →
  DATA item = None →
  let file_path :=
    os_path_join fileLocation
      (("ATT" +:+ format (ATTACHMENTID item) +:+ "_") +:+ name) in
  open_fault w file_path = None →
  let w1 := file_exit file_path (opened file_path wb w) in
  let w' :=
    emit (ErrorMessage ("Error while extracting attachments: "
                        +:+ "'NoneType' object has no attribute 'tobytes'"))
      w1 in
  extract_attachments inTable fileLocation w0 = (Returned tt, w')
  ∧ files w' !! file_path = Some []
  ∧ handles w' = handles w
  ∧ new_calls w w' = [call_open file_path wb; call_close file_path]
  ∧ saved_count w0 w' = length pre.
Proof.
  intros Hex Hmk Hcur Hpre Hname Hdata file_path Hopen w1 w'.
  pose proof (loop_body_cases fileLocation item w) as Hc.
  rewrite Hname in Hc. cbv zeta in Hc. fold file_path in Hc.
  rewrite Hopen, Hdata in Hc.
  assert (Hrun : try_block inTable fileLocation w0
                 = (Raised no_tobytes, w1)).
  { destruct (try_block_cases inTable fileLocation w0 Hex)
      as [(e & n & Hp & Hf & _)|[_ ->]].
    - rewrite (Hmk Hp) in Hf. discriminate.
    - unfold table_cursor. rewrite Hcur, for_in_prepend, Hpre. simpl.
      unfold mbind, py_bind. by rewrite Hc. }
  assert (Hext : extract_attachments inTable fileLocation w0
                 = (Returned tt, w')).
  { by rewrite extract_unfold, Hrun. }
  split; [exact Hext|]. split; [|split; [|split]].
  - simpl. by rewrite lookup_insert_eq.
  - simpl. by rewrite decide_True.
  - apply new_calls_app. simpl. by rewrite <- !app_assoc.
  - destruct (for_in_effect fileLocation _ _ _ _ Hpre)
      as (k & cs & [_ _ Lb Lc Ll _ _ _ _ _ _]).
    assert (Hrows : rows_of (prepend pre StopIteration) = pre).
    { clear. induction pre as [|r l IH]; [done|]. simpl. by rewrite IH. }
    rewrite Hrows in *. subst k. rewrite firstn_all in Ll.
    destruct (loop_entry_effect inTable fileLocation w0)
      as (_ & _ & _ & _ & (created & El & Ec) & _).
    erewrite saved_count_app;
      [|simpl; rewrite Ll, El, <- !app_assoc; reflexivity].
    rewrite !filter_app, !length_app, saved_messages_length.
    assert (length (filter is_saved created) = 0) as ->.
    { rewrite Ec. by destruct (path_present w0 fileLocation). }
    simpl. lia.
Qed.

End NullPayload.

(** C8 as stated fails on a path that already holds a file: the open is not
    refused, and the old contents are replaced. *)
Lemma wb_open_replaces_existing_file :
  let host := reliable photos "out" photos (Next jpg_a StopIteration) in
  let w := disk_with "out/ATT1_a.jpg" ["255"%byte] in
  let w' := (@loop_body host "out" jpg_a w).2 in
  files w !! "out/ATT1_a.jpg" = Some ["255"%byte]
  ∧ @loop_body host "out" jpg_a w = (Returned tt, w')
  ∧ files w' !! "out/ATT1_a.jpg" = Some ["001"%byte; "002"%byte].
Proof. vm_compute. repeat split. Qed.

(** C8, amended, on a write that raises: the handle is released all the
    same. *)
Lemma file_handle_scoped_witness :
  let host := disk_full_at "out/ATT1_a.jpg" StopIteration in
  ATT_NAME jpg_a = Some "a.jpg"
  ∧ @open_fault host blank "out/ATT1_a.jpg" = None
  ∧ ∃ e w', @loop_body host "out" jpg_a blank = (Raised e, w')
            ∧ handles w' = handles blank.
Proof.
  split; [reflexivity|]. split; [reflexivity|].
  destruct (@file_handle_scoped
              (disk_full_at "out/ATT1_a.jpg" StopIteration)
              "out" jpg_a blank "a.jpg" eq_refl eq_refl)
    as (res & w' & Hrun & Hhandles & _).
  pose proof (f_equal fst Hrun) as Hres. vm_compute in Hres. subst res.
  eexists _, w'. split; [exact Hrun|exact Hhandles].
Defined.

(** C9 on the empty photograph of the specification's scenario, followed by
    another row. *)
Lemma empty_payload_row_witness :
  let host := reliable photos "out" photos
                (Next jpg_b (Next jpg_a StopIteration)) in
  ATT_NAME jpg_b = Some "b.jpg"
  ∧ DATA jpg_b = Some []
  ∧ ∃ w1, @loop_body host "out" jpg_b blank = (Returned tt, w1)
      ∧ files w1 !! "out/ATT2_b.jpg" = Some []
      ∧ for_in (Next jpg_b (Next jpg_a StopIteration))
          (@loop_body host "out") blank
        = for_in (Next jpg_a StopIteration) (@loop_body host "out") w1.
Proof.
  split; [reflexivity|]. split; [reflexivity|].
  destruct (@empty_payload_row
              (reliable photos "out" photos
                 (Next jpg_b (Next jpg_a StopIteration)))
              "out" jpg_b (Next jpg_a StopIteration) blank "b.jpg"
              eq_refl eq_refl eq_refl eq_refl)
    as (w1 & Hrun & Hfile & _ & Hloop).
  exists w1. repeat split; assumption.
Defined.

(** C10 as stated fails on a table whose only row has a null payload: the
    call leaves a file at the row's path where there was none. *)
Lemma null_payload_leaves_empty_file :
  let host := reliable photos "out" photos (Next null_row StopIteration) in
  let w' := (@extract_attachments host photos "out" blank).2 in
  DATA null_row = None
  ∧ files blank !! "out/ATT3_c.jpg" = None
  ∧ files w' !! "out/ATT3_c.jpg" = Some [].
Proof. vm_compute. repeat split. Qed.

(** C10, amended, on a null payload between two photographs. *)
Lemma null_payload_aborts_witness :
  let host := reliable photos "out" photos
                (Next jpg_a (Next null_row (Next jpg_b StopIteration))) in
  let w := (for_in (prepend [jpg_a] StopIteration) (@loop_body host "out")
              (@loop_entry host photos "out" blank)).2 in
  let w' := (@extract_attachments host photos "out" blank).2 in
  DATA null_row = None
  ∧ @open_fault host w "out/ATT3_c.jpg" = None
  ∧ files w' !! "out/ATT3_c.jpg" = Some []
  ∧ files w' !! "out/ATT2_b.jpg" = None
  ∧ saved_count blank w' = 1.
Proof.
  split; [reflexivity|]. split; [reflexivity|].
  destruct (@null_payload_aborts
              (reliable photos "out" photos
                 (Next jpg_a (Next null_row (Next jpg_b StopIteration))))
              photos "out" blank
              (for_in (prepend [jpg_a] StopIteration)
                 (@loop_body
                    (reliable photos "out" photos
                       (Next jpg_a (Next null_row (Next jpg_b StopIteration))))
                    "out")
                 (@loop_entry
                    (reliable photos "out" photos
                       (Next jpg_a (Next null_row (Next jpg_b StopIteration))))
                    photos "out" blank)).2
              [jpg_a] null_row (Next jpg_b StopIteration) "c.jpg"
              eq_refl (λ _, eq_refl) eq_refl eq_refl eq_refl eq_refl eq_refl)
    as (Hrun & Hfile & _ & _ & Hcount).
  cbv zeta. rewrite Hrun. split; [exact Hfile|]. split; [|exact Hcount].
  vm_compute. reflexivity.
Defined.

(** ** Further properties of the call as a whole *)

Section Trace.
Context `{Host}.
Variable fileLocation : string.

Lemma scoped_group (p : string) (d : list byte) (cs : list call) :
  scoped ([call_open p wb; call_write p d; call_close p] ++ cs) = scoped cs.
Proof. simpl. by rewrite bool_decide_eq_true_2. Qed.

(** The file calls of one pass: a whole group when it returns, a scoped
    trace when it raises. *)
Lemma loop_body_trace (item : row) (w : world) res w' :
  loop_body fileLocation item w = (res, w') →
  ∃ g, calls w' = calls w ++ g
       ∧ Forall (λ c, is_file_call c = true) g
       ∧ if res is Returned _
         then ∃ p d, g = [call_open p wb; call_write p d; call_close p]
         else scoped g = true.
Proof.
  intros Hrun. pose proof (loop_body_cases fileLocation item w) as Hc.
  destruct (ATT_NAME item) as [name|].
  2:{ rewrite Hc in Hrun. inversion Hrun; subst. exists [].
      by rewrite app_nil_r. }
  cbv zeta in Hc. destruct (open_fault w _) as [e|].
  { rewrite Hc in Hrun. inversion Hrun; subst. eexists. split; [done|].
    split; [by repeat constructor|done]. }
  destruct (DATA item) as [data|].
  2:{ rewrite Hc in Hrun. inversion Hrun; subst. eexists.
      split; [simpl; by rewrite <- app_assoc|].
      split; [by repeat constructor|]. simpl. by rewrite bool_decide_eq_true_2. }
  destruct (write_fault _ _ data) as [[e k]|];
    rewrite Hc in Hrun; inversion Hrun; subst; eexists;
    (split; [simpl; by rewrite <- !app_assoc|]);
    (split; [by repeat constructor|]).
  - simpl. by rewrite bool_decide_eq_true_2.
  - by eexists _, _.
Qed.

Lemma for_in_trace (c : cursor) : ∀ w res w',
  for_in c (loop_body fileLocation) w = (res, w') →
  ∃ cs, calls w' = calls w ++ cs
        ∧ Forall (λ c, is_file_call c = true) cs ∧ scoped cs = true.
Proof.
  induction c as [|r0 rest IH|e]; intros w res w' Hrun.
  - inversion Hrun; subst. exists []. by rewrite app_nil_r.
  - simpl in Hrun. unfold mbind, py_bind in Hrun.
    destruct (loop_body fileLocation r0 w) as [[[]|e] w1] eqn:Hb;
      apply loop_body_trace in Hb as (g & Hg & Hfile & Hshape).
    + destruct (IH _ _ _ Hrun) as (cs & Hcs & Hfiles & Hscoped).
      destruct Hshape as (p & d & ->).
      exists ([call_open p wb; call_write p d; call_close p] ++ cs).
      split; [rewrite Hcs, Hg; by rewrite <- app_assoc|].
      split; [by apply Forall_app|]. by rewrite scoped_group.
    + inversion Hrun; subst. by exists g.
  - inversion Hrun; subst. exists []. by rewrite app_nil_r.
Qed.

End Trace.

Section Whole.
Context `{Host}.
Variables inTable fileLocation : string.

Lemma extract_missing (w : world) :
  dataset_exists inTable = false →
  extract_attachments inTable fileLocation w
  = (Returned tt,
     emit (ErrorMessage ("Input table " +:+ inTable +:+ " does not exist."))
       (record_call (call_Exists inTable) w)).
Proof. intros Hex. by rewrite extract_unfold, try_block_unfold, Hex. Qed.


(** The shape of what a call on an existing table sends to the sink. *)
Lemma extract_messages (w : world) :
  dataset_exists inTable = true →
  let w' := (extract_attachments inTable fileLocation w).2 in
  ∃ created failure,
    new_messages w w'
    = created
      ++ map saved_message (take (saved_count w w') (table_rows inTable))
      ++ failure
    ∧ (created = [] ∨ created = [created_message fileLocation])
    ∧ (failure = [] ∨ ∃ e, failure = [failure_message e])
    ∧ saved_count w w' ≤ length (table_rows inTable)
    ∧ (failure = [] → saved_count w w' = length (table_rows inTable)).
Proof.
  intros Hex w'. subst w'.
  destruct (extract_effect inTable fileLocation w Hex)
    as (res & w1 & k & _ & Hk & Hext & Hcount).
  rewrite Hcount. rewrite Hext. simpl.
  destruct Hk as [Kb Kc (created & Kcr & Kl) _ _ _ _ _ _ _].
  exists created. destruct res as [[]|e].
  - exists []. split; [apply new_messages_app; by rewrite app_nil_r|].
    split; [done|]. split; [by left|]. by split.
  - exists [failure_message e].
    split; [apply new_messages_app; simpl; by rewrite Kl, <- !app_assoc|].
    split; [done|]. split; [by eauto|]. by split.
Qed.

(** X1.  Messages are reported in cursor order: on a table that exists, what a
    call sends to the sink is the optional directory message, then one
    "Saved attachment" message for each of the first [saved_count] rows of
    the table, in the order of the cursor, then at most the catch-all
    error; without that error every row of the table was reported. *)
Theorem messages_follow_cursor_order (w : world) :
  dataset_exists inTable = true →
  let w' := (extract_attachments inTable fileLocation w).2 in
  ∃ created failure,
    new_messages w w'
    = created
      ++ map saved_message (take (saved_count w w') (table_rows inTable))
      ++ failure
    ∧ (created = []
       ∨ created = [Message ("Created directory: " +:+ fileLocation)])
    ∧ (failure = []
       ∨ ∃ e, failure = [ErrorMessage ("Error while extracting attachments: "
                                       +:+ description e)])
    ∧ saved_count w w' ≤ length (table_rows inTable)
    ∧ (failure = [] → saved_count w w' = length (table_rows inTable)).
Proof.
  intros Hex w'.
  destruct (extract_messages w Hex)
    as (created & failure & Hnew & Hc & Hf & Hle & Hall).
  exists created, failure. split; [exact Hnew|].
  split; [exact Hc|]. split; [exact Hf|]. by split.
Qed.



(** X3.  A call that reports no error has exported the whole table: the table
    exists, every one of its rows was reported saved, and each of them has
    a payload and a file at its path when the call returns. *)
Theorem no_error_means_all_rows_saved (w : world) :
  let w' := (extract_attachments inTable fileLocation w).2 in
  filter is_error (new_messages w w') = [] →
  dataset_exists inTable = true
  ∧ saved_count w w' = length (table_rows inTable)
  ∧ ∀ r, r ∈ table_rows inTable →
      ∃ p, output_path fileLocation r = Some p
           ∧ is_Some (DATA r) ∧ is_Some (files w' !! p).
Proof.
  intros w' Hnone. subst w'.
  destruct (dataset_exists inTable) eqn:Hex.
  2:{ rewrite (extract_missing w Hex) in Hnone. simpl in Hnone.
      erewrite new_messages_app in Hnone; [|reflexivity]. discriminate. }
  split; [done|].
  destruct (extract_effect inTable fileLocation w Hex)
    as (res & w1 & k & _ & Hk & Hext & Hcount).
  rewrite Hcount. rewrite Hext in *. simpl in *.
  destruct Hk as [_ Kc (created & _ & Kl) _ _ _ _ _ Ks Ke].
  destruct res as [[]|e].
  - split; [done|]. intros r [i Hi]%list_elem_of_lookup.
    assert (Hlt : i < k) by (rewrite Kc; by eapply lookup_lt_Some).
    destruct (Ks i r Hlt Hi) as (p & data & Hp & Hd & Hfile).
    exists p. split; [done|]. split; [by rewrite Hd|].
    destruct (Ke i r Hlt Hi) as (p' & Hp' & Hsome). congruence.
  - exfalso. erewrite new_messages_app in Hnone;
      [|simpl; rewrite Kl, <- !app_assoc; reflexivity].
    rewrite !filter_app in Hnone.
    apply app_eq_nil in Hnone as [_ Hnone].
    apply app_eq_nil in Hnone as [_ Hnone]. discriminate.
Qed.

End Whole.

Section Footprint.
Context `{Host}.
Variables inTable fileLocation : string.

(** The block under [try] on a table that exists, seen from the loop: it
    either stopped at [os.makedirs] or is the loop run from [loop_entry]. *)
Lemma extract_cases (w : world) :
  dataset_exists inTable = true →
  (∃ e k, path_present w fileLocation = false
     ∧ makedirs_fault (at_makedirs inTable fileLocation w) fileLocation
       = Some (e, k)
     ∧ extract_attachments inTable fileLocation w
       = (Returned tt,
          emit (failure_message e)
            (set_dirs
               (dirs w ∪ list_to_set (take k (path_ancestors fileLocation)))
               (record_call (call_makedirs fileLocation)
                  (at_makedirs inTable fileLocation w)))))
  ∨ (∃ res w1,
       for_in (table_cursor inTable) (loop_body fileLocation)
         (loop_entry inTable fileLocation w) = (res, w1)
       ∧ extract_attachments inTable fileLocation w
         = (Returned tt,
            if res is Raised e then emit (failure_message e) w1 else w1)).
Proof.
  intros Hex. rewrite extract_unfold.
  destruct (try_block_cases inTable fileLocation w Hex)
    as [(e & k & Hp & Hf & ->)|[_ ->]].
  - left. by exists e, k.
  - right. destruct (for_in _ _ _) as [res w1].
    exists res, w1. split; [done|]. by destruct res as [[]|e].
Qed.

(** X4.  No handle is left open: whatever happens during a call, the open file
    objects after it are those from before it. *)
Theorem extract_releases_every_handle (w : world) :
  handles (extract_attachments inTable fileLocation w).2 = handles w.
Proof.
  destruct (dataset_exists inTable) eqn:Hex.
  - destruct (extract_effect inTable fileLocation w Hex)
      as (res & w1 & k & _ & Hk & -> & _).
    rewrite <- (block_handles _ _ _ _ _ _ Hk). by destruct res.
  - by rewrite (extract_missing inTable fileLocation w Hex).
Qed.


(** X6.  Files are handled one at a time.  The calls of any run are a few
    set-up calls, none of them on a file, followed by file calls only, in
    which every [open] is followed by at most one [write] to that file and
    then by its [close] before anything else happens (an [open] that is the
    very last call is one that failed). *)
Theorem files_handled_one_at_a_time (w : world) :
  let w' := (extract_attachments inTable fileLocation w).2 in
  ∃ setup cs,
    new_calls w w' = setup ++ cs
    ∧ Forall (λ c, is_file_call c = false) setup
    ∧ Forall (λ c, is_file_call c = true) cs
    ∧ scoped cs = true.
Proof.
  intros w'. subst w'. destruct (dataset_exists inTable) eqn:Hex.
  2:{ rewrite (extract_missing inTable fileLocation w Hex).
      exists [call_Exists inTable], [].
      split; [by apply new_calls_app|]. by repeat constructor. }
  destruct (extract_cases w Hex)
    as [(e & k & _ & _ & ->)|(res & w1 & Hrun & ->)].
  - exists [call_Exists inTable; call_path_exists fileLocation;
            call_makedirs fileLocation], [].
    split; [apply new_calls_app; simpl; by rewrite <- !app_assoc|].
    by repeat constructor.
  - destruct (for_in_trace fileLocation _ _ _ _ Hrun)
      as (cs & Hcs & Hfiles & Hscoped).
    assert (Hentry : ∃ setup,
              calls (loop_entry inTable fileLocation w) = calls w ++ setup
              ∧ Forall (λ c, is_file_call c = false) setup).
    { unfold loop_entry, directory_made, at_makedirs.
      destruct (path_present w fileLocation); simpl; eexists;
        (split; [by rewrite <- !app_assoc|]); by repeat constructor. }
    destruct Hentry as (setup & Hsetup & Hnone).
    exists setup, cs. split; [|done].
    apply new_calls_app. rewrite app_assoc, <- Hsetup, <- Hcs.
    by destruct res.
Qed.

(** X7.  A destination that is already there is left alone: nothing is created
    (the directories after the call are those before it), [os.makedirs] is
    not called, and no creation is reported. *)
Theorem existing_destination_left_alone (w : world) :
  dataset_exists inTable = true →
  path_present w fileLocation = true →
  let w' := (extract_attachments inTable fileLocation w).2 in
  dirs w' = dirs w
  ∧ (call_makedirs fileLocation ∉ new_calls w w')
  ∧ (Message ("Created directory: " +:+ fileLocation) ∉ new_messages w w').
Proof.
  intros Hex Hthere w'. subst w'.
  destruct (extract_cases w Hex)
    as [(e & k & Hp & _)|(res & w1 & Hrun & ->)]; [congruence|].
  destruct (for_in_effect fileLocation _ _ _ _ Hrun)
    as (k & cs & [Ld _ _ _ Ll _ _ _ _ _ _]).
  destruct (for_in_trace fileLocation _ _ _ _ Hrun)
    as (cs' & Hcs & Hfiles & _).
  unfold loop_entry in Ld, Ll, Hcs. rewrite Hthere in Ld, Ll, Hcs.
  simpl in Ld, Ll, Hcs. cbn [snd]. split; [|split].
  - rewrite <- Ld. by destruct res.
  - erewrite new_calls_app;
      [|instantiate (1 := [_; _; _] ++ cs'); destruct res; simpl;
        rewrite Hcs, <- !app_assoc; reflexivity].
    intros [Hin|Hin]%elem_of_app.
    + apply elem_of_cons in Hin as [?|Hin]; [done|].
      apply elem_of_cons in Hin as [?|Hin]; [done|].
      apply elem_of_cons in Hin as [?|Hin]; [done|].
      by apply not_elem_of_nil in Hin.
    + rewrite Forall_forall in Hfiles. by apply Hfiles in Hin.
  - assert (Hnew : ∃ failure,
              new_messages w
                (if res is Raised e then emit (failure_message e) w1 else w1)
              = map saved_message (take k (rows_of (table_cursor inTable)))
                ++ failure
              ∧ Forall (λ m, is_error m = true) failure).
    { destruct res as [[]|e].
      - exists []. split; [|done].
        apply new_messages_app. by rewrite app_nil_r.
      - exists [failure_message e]. split; [|by repeat constructor].
        apply new_messages_app. simpl. by rewrite Ll, <- !app_assoc. }
    destruct Hnew as (failure & -> & Hfail).
    intros [Hin|Hin]%elem_of_app.
    + apply list_elem_of_fmap in Hin as (r & Heq & _).
      pose proof (is_saved_saved_message r) as Hs. rewrite <- Heq in Hs.
      discriminate.
    + rewrite Forall_forall in Hfail. by apply Hfail in Hin.
Qed.

(** X8.  When the destination cannot be made, the table is never read: the call
    reports the failure and stops after the three calls that asked about
    the table, asked about the path and tried to make it.  No file is
    touched, and any directory that appeared is an ancestor that
    [os.makedirs] made before it failed. *)
Theorem makedirs_failure_reads_nothing (w : world) (e : exn) (k : nat) :
  dataset_exists inTable = true →
  path_present w fileLocation = false →
  makedirs_fault (at_makedirs inTable fileLocation w) fileLocation
  = Some (e, k) →
  ∃ w',
    extract_attachments inTable fileLocation w = (Returned tt, w')
    ∧ new_messages w w'
      = [ErrorMessage ("Error while extracting attachments: "
                       +:+ description e)]
    ∧ new_calls w w'
      = [call_Exists inTable; call_path_exists fileLocation;
         call_makedirs fileLocation]
    ∧ files w' = files w
    ∧ (∀ d, d ∈ dirs w' → d ∈ dirs w ∨ d ∈ path_ancestors fileLocation).
Proof.
  intros Hex Hp Hf. rewrite extract_unfold.
  destruct (try_block_cases inTable fileLocation w Hex)
    as [(e' & k' & _ & Hf' & ->)|[[Hp'|Hf'] _]]; [|congruence..].
  rewrite Hf in Hf'. injection Hf' as <- <-.
  eexists. split; [reflexivity|].
  split; [by apply new_messages_app|].
  split; [apply new_calls_app; simpl; by rewrite <- !app_assoc|].
  split; [done|]. simpl. intros d [Hd|Hd]%elem_of_union; [by left|].
  right. apply elem_of_list_to_set in Hd.
  by apply (subseteq_take k).
Qed.

(** X9.  When the cursor cannot be opened (a missing column, an unreadable
    table), the destination has been prepared all the same and stays; the
    call reports the cursor's exception, no row is reported saved, no file
    is opened and the files on disk are those from before. *)
Theorem cursor_failure_keeps_directory (w : world) (e : exn) :
  dataset_exists inTable = true →
  (path_present w fileLocation = false →
   makedirs_fault (at_makedirs inTable fileLocation w) fileLocation = None) →
  open_cursor inTable cursor_fields = inl e →
  let w' :=
    emit (ErrorMessage ("Error while extracting attachments: "
                        +:+ description e))
      (loop_entry inTable fileLocation w) in
  extract_attachments inTable fileLocation w = (Returned tt, w')
  ∧ path_present w' fileLocation = true
  ∧ files w' = files w
  ∧ saved_count w w' = 0
  ∧ opens (new_calls w w') = 0.
Proof.
  intros Hex Hmk Hcur w'.
  assert (Hext : extract_attachments inTable fileLocation w
                 = (Returned tt, w')).
  { destruct (extract_cases w Hex)
      as [(e' & k' & Hp & Hf & _)|(res & w1 & Hrun & ->)].
    - rewrite (Hmk Hp) in Hf. discriminate.
    - unfold table_cursor in Hrun. rewrite Hcur in Hrun.
      by injection Hrun as <- <-. }
  destruct (loop_entry_effect inTable fileLocation w)
    as (Ef & _ & _ & Ed & (created & El & Ec) & (cs & Ecs & Eo)).
  subst w'. split; [exact Hext|]. split; [|split; [exact Ef|split]].
  - destruct (path_present w fileLocation) eqn:Hp.
    + unfold loop_entry. by rewrite Hp.
    + by apply path_present_dir, Ed.
  - erewrite saved_count_app;
      [|unfold emit; cbn [log]; rewrite El, <- app_assoc; reflexivity].
    rewrite Ec. by destruct (path_present w fileLocation).
  - erewrite new_calls_app; [|exact Ecs].
    change (call_Exists inTable :: cs) with ([call_Exists inTable] ++ cs).
    by rewrite opens_app, Eo.
Qed.

End Footprint.

Section RowFailures.
Context `{Host}.
Variables inTable fileLocation : string.

(** When the rows before [item] were processed and the pass over [item]
    raises, the call ends with the state of that moment plus the catch-all
    message, and has reported exactly the rows before [item]. *)
Lemma extract_stops_at_row (w0 w w2 : world) (pre : list row) (item : row)
    (rest : cursor) (e : exn) :
  dataset_exists inTable = true →
  (path_present w0 fileLocation = false →
   makedirs_fault (at_makedirs inTable fileLocation w0) fileLocation = None) →
  open_cursor inTable cursor_fields = inr (prepend pre (Next item rest)) →
  for_in (prepend pre StopIteration) (loop_body fileLocation)
    (loop_entry inTable fileLocation w0) = (Returned tt, w) →
  loop_body fileLocation item w = (Raised e, w2) →
  extract_attachments inTable fileLocation w0
  = (Returned tt, emit (failure_message e) w2)
  ∧ saved_count w0 (emit (failure_message e) w2) = length pre.
Proof.
  intros Hex Hmk Hcur Hpre Hitem.
  assert (Hrun : try_block inTable fileLocation w0 = (Raised e, w2)).
  { destruct (try_block_cases inTable fileLocation w0 Hex)
      as [(e' & n & Hp & Hf & _)|[_ ->]].
    - rewrite (Hmk Hp) in Hf. discriminate.
    - unfold table_cursor. rewrite Hcur.
      by apply for_in_stops_at_raise with w. }
  split; [by rewrite extract_unfold, Hrun|].
  destruct (for_in_effect fileLocation _ _ _ _ Hpre)
    as (k & cs & [_ _ _ Lc Ll _ _ _ _ _ _]).
  assert (Hrows : rows_of (prepend pre StopIteration) = pre).
  { clear. induction pre as [|r l IH]; [done|]. simpl. by rewrite IH. }
  rewrite Hrows in *. subst k. rewrite firstn_all in Ll.
  destruct (loop_body_effect fileLocation _ _ _ _ Hitem)
    as [_ _ Bl _ _ _ _]. rewrite app_nil_r in Bl.
  destruct (loop_entry_effect inTable fileLocation w0)
    as (_ & _ & _ & _ & (created & El & Ec) & _).
  erewrite saved_count_app;
    [|unfold emit; cbn [log]; rewrite Bl, Ll, El, <- !app_assoc; reflexivity].
  rewrite !filter_app, !length_app, saved_messages_length.
  assert (length (filter is_saved created) = 0) as ->.
  { rewrite Ec. by destruct (path_present w0 fileLocation). }
  simpl. lia.
Qed.

(** X10.  A row whose name is null stops the run before anything is done for it:
    adding [None] to the "ATT<id>_" prefix raises, so no file is opened for
    the row, the disk is as the rows before it left it, the rows after it
    are not visited, and the call reports the catch-all error with the
    TypeError's description. *)
Theorem null_name_stops_before_open (w0 w : world) (pre : list row)
    (item : row) (rest : cursor) :
  dataset_exists inTable = true →
  (path_present w0 fileLocation = false →
   makedirs_fault (at_makedirs inTable fileLocation w0) fileLocation = None) →
  open_cursor inTable cursor_fields = inr (prepend pre (Next item rest)) →
  for_in (prepend pre StopIteration) (loop_body fileLocation)
    (loop_entry inTable fileLocation w0) = (Returned tt, w) →
  ATT_NAME item = None →
  let w' :=
    emit (ErrorMessage ("Error while extracting attachments: "
                        +:+ description cannot_concatenate)) w in
  extract_attachments inTable fileLocation w0 = (Returned tt, w')
  ∧ files w' = files w
  ∧ new_calls w w' = []
  ∧ saved_count w0 w' = length pre.
Proof.
  intros Hex Hmk Hcur Hpre Hname w'.
  pose proof (loop_body_cases fileLocation item w) as Hc.
  rewrite Hname in Hc.
  destruct (extract_stops_at_row w0 w w pre item rest cannot_concatenate
              Hex Hmk Hcur Hpre Hc) as [Hext Hcount].
  split; [exact Hext|]. split; [done|]. split; [|exact Hcount].
  apply new_calls_app. by rewrite app_nil_r.
Qed.

(** X11.  A row whose output path cannot be opened (a name the file system
    refuses, a permission problem) stops the run without touching the
    disk: what was at that path before is still there unchanged, no handle
    is held, the rows after it are not visited, and the call reports the
    catch-all error with the description of the failed [open]. *)
Theorem open_failure_leaves_disk (w0 w : world) (pre : list row)
    (item : row) (rest : cursor) (name : string) (e : exn) :
  dataset_exists inTable = true →
  (path_present w0 fileLocation = false →
   makedirs_fault (at_makedirs inTable fileLocation w0) fileLocation = None) →
  open_cursor inTable cursor_fields = inr (prepend pre (Next item rest)) →
  for_in (prepend pre StopIteration) (loop_body fileLocation)
    (loop_entry inTable fileLocation w0) = (Returned tt, w) →
  ATT_NAME item = Some name →
  let file_path :=
    os_path_join fileLocation
      (("ATT" +:+ format (ATTACHMENTID item) +:+ "_") +:+ name) in
  open_fault w file_path = Some e →
  ∃ w',
    extract_attachments inTable fileLocation w0 = (Returned tt, w')
    ∧ new_messages w w'
      = [ErrorMessage ("Error while extracting attachments: "
                       +:+ description e)]
    ∧ files w' = files w
    ∧ handles w' = handles w
    ∧ new_calls w w' = [call_open file_path wb]
    ∧ saved_count w0 w' = length pre.
Proof.
  intros Hex Hmk Hcur Hpre Hname file_path Hopen.
  pose proof (loop_body_cases fileLocation item w) as Hc.
  rewrite Hname in Hc. cbv zeta in Hc. fold file_path in Hc.
  rewrite Hopen in Hc.
  destruct (extract_stops_at_row w0 w _ pre item rest e
              Hex Hmk Hcur Hpre Hc) as [Hext Hcount].
  eexists. split; [exact Hext|].
  split; [by apply new_messages_app|]. split; [done|]. split; [done|].
  split; [by apply new_calls_app|exact Hcount].
Qed.

(** X12.  A write that fails part-way is not cleaned up: the file stays on disk
    holding the bytes that were stored before the failure, its handle is
    closed, the rows after it are not visited, and the call reports the
    catch-all error with the description of the failed write. *)
Theorem write_failure_leaves_partial_file (w0 w : world) (pre : list row)
    (item : row) (rest : cursor) (name : string) (data : list byte)
    (e : exn) (k : nat) :
  dataset_exists inTable = true →
  (path_present w0 fileLocation = false →
   makedirs_fault (at_makedirs inTable fileLocation w0) fileLocation = None) →
  open_cursor inTable cursor_fields = inr (prepend pre (Next item rest)) →
  for_in (prepend pre StopIteration) (loop_body fileLocation)
    (loop_entry inTable fileLocation w0) = (Returned tt, w) →
  ATT_NAME item = Some name →
  DATA item = Some data →
  let file_path :=
    os_path_join fileLocation
      (("ATT" +:+ format (ATTACHMENTID item) +:+ "_") +:+ name) in
  open_fault w file_path = None →
  write_fault (opened file_path wb w) file_path data = Some (e, k) →
  ∃ w',
    extract_attachments inTable fileLocation w0 = (Returned tt, w')
    ∧ new_messages w w'
      = [ErrorMessage ("Error while extracting attachments: "
                       +:+ description e)]
    ∧ files w' !! file_path = Some (take k data)
    ∧ handles w' = handles w
    ∧ new_calls w w'
      = [call_open file_path wb; call_write file_path data;
         call_close file_path]
    ∧ saved_count w0 w' = length pre.
Proof.
  intros Hex Hmk Hcur Hpre Hname Hdata file_path Hopen Hwrite.
  pose proof (loop_body_cases fileLocation item w) as Hc.
  rewrite Hname in Hc. cbv zeta in Hc. fold file_path in Hc.
  rewrite Hopen, Hdata, Hwrite in Hc.
  destruct (extract_stops_at_row w0 w _ pre item rest e
              Hex Hmk Hcur Hpre Hc) as [Hext Hcount].
  eexists. split; [exact Hext|].
  split; [by apply new_messages_app|].
  split; [simpl; by rewrite lookup_insert_eq|].
  split; [simpl; by rewrite decide_True|].
  split; [|exact Hcount].
  apply new_calls_app. simpl. by rewrite <- !app_assoc.
Qed.

End RowFailures.

(** ** File names *)

Lemma string_app_cons (x : ascii) (a b : string) :
  String x a +:+ b = String x (a +:+ b).
Proof. reflexivity. Qed.

Lemma string_app_nil_l (b : string) : "" +:+ b = b.
Proof. reflexivity. Qed.

Lemma string_app_assoc (a b c : string) : (a +:+ b) +:+ c = a +:+ b +:+ c.
Proof.
  induction a as [|x a IH]; [done|].
  by rewrite !string_app_cons, IH.
Qed.

Lemma pretty_N_char_not_underscore (x : N) : pretty_N_char x ≠ "_"%char.
Proof. unfold pretty_N_char. by repeat case_match. Qed.

Lemma pretty_N_go_no_underscore (x : N) : ∀ s,
  has_char "_" s = false → has_char "_" (pretty_N_go x s) = false.
Proof.
  induction (N.lt_wf_0 x) as [x _ IH]. intros s Hs.
  destruct (decide (x = 0)%N) as [->|Hx]; [by rewrite pretty_N_go_0|].
  rewrite pretty_N_go_step by lia. apply IH.
  - apply N.div_lt; lia.
  - simpl. rewrite Hs, orb_false_r. apply bool_decide_eq_false_2.
    intros Heq. by apply (pretty_N_char_not_underscore (x `mod` 10)%N).
Qed.

(** The decimal form of an integer has no underscore. *)
Lemma pretty_Z_no_underscore (n : Z) : has_char "_" (pretty n) = false.
Proof.
  assert (Hpos : ∀ p, has_char "_" (pretty (N.pos p)) = false).
  { intros p. unfold pretty, pretty_N. rewrite decide_False by done.
    by apply pretty_N_go_no_underscore. }
  destruct n as [|p|p]; [done|apply Hpos|].
  unfold pretty, pretty_Z. simpl. apply Hpos.
Qed.

(** Two strings that agree up to their first underscore agree before it and
    after it. *)
Lemma split_at_underscore (a b s t : string) :
  has_char "_" a = false → has_char "_" b = false →
  a +:+ String "_" s = b +:+ String "_" t → a = b ∧ s = t.
Proof.
  revert b. induction a as [|x a IH]; intros [|y b] Ha Hb Heq;
    rewrite ?string_app_cons, ?string_app_nil_l in Heq; simpl in *.
  - by injection Heq as ->.
  - injection Heq as <- _. by rewrite bool_decide_eq_true_2 in Hb.
  - injection Heq as -> _. by rewrite bool_decide_eq_true_2 in Ha.
  - injection Heq as -> Heq. apply orb_false_iff in Ha as [_ Ha].
    apply orb_false_iff in Hb as [_ Hb].
    destruct (IH b Ha Hb Heq) as [-> ->]. done.
Qed.

(** Lines 32-33 on integer identifiers: the name "ATT<id>_<name>" determines
    both the identifier and the name. *)
Lemma att_name_inj (n1 n2 : Z) (name1 name2 : string) :
  ("ATT" +:+ format (id_int n1) +:+ "_") +:+ name1
  = ("ATT" +:+ format (id_int n2) +:+ "_") +:+ name2 →
  n1 = n2 ∧ name1 = name2.
Proof.
  unfold format. rewrite !string_app_assoc.
  rewrite !string_app_cons, !string_app_nil_l. intros [= Heq].
  destruct (split_at_underscore _ _ _ _
              (pretty_Z_no_underscore n1) (pretty_Z_no_underscore n2) Heq)
    as [Hn ->].
  split; [|done]. by apply (inj pretty).
Qed.

Section Names.
Context `{Host}.
Variables inTable fileLocation : string.

(** X13.  With integer identifiers the derived file name is injective: two rows
    that derive the same file name have the same ATTACHMENTID and the same
    ATT_NAME, so distinct identifiers never collide, whatever the names. *)
Theorem integer_ids_give_distinct_names (r1 r2 : row) (n1 n2 : Z)
    (filename : string) :
  ATTACHMENTID r1 = id_int n1 →
  ATTACHMENTID r2 = id_int n2 →
  file_name r1 = Some filename →
  file_name r2 = Some filename →
  n1 = n2 ∧ ATT_NAME r1 = ATT_NAME r2.
Proof.
  unfold file_name. intros -> -> Hf1 Hf2.
  destruct (ATT_NAME r1) as [name1|]; [|done].
  destruct (ATT_NAME r2) as [name2|]; [|done].
  simpl in Hf1, Hf2.
  assert (Heq : ("ATT" +:+ pretty n2 +:+ "_") +:+ name2
                = ("ATT" +:+ pretty n1 +:+ "_") +:+ name1)
    by congruence.
  destruct (att_name_inj n2 n1 name2 name1 Heq) as [-> ->]. done.
Qed.

(** X14.  On a table whose rows carry pairwise distinct integer identifiers, and
    a platform on which joining the destination with two different derived
    file names gives two different paths, every row that the call reported
    saved
    has its file on disk with exactly its payload when the call returns:
    no row overwrote another. *)
Theorem distinct_ids_keep_every_payload (w : world) :
  (∀ r, r ∈ table_rows inTable → ∃ n, ATTACHMENTID r = id_int n) →
  (∀ i j r r', table_rows inTable !! i = Some r →
               table_rows inTable !! j = Some r' →
               ATTACHMENTID r = ATTACHMENTID r' → i = j) →
  (∀ r r' f f', r ∈ table_rows inTable → r' ∈ table_rows inTable →
                file_name r = Some f → file_name r' = Some f' →
                os_path_join fileLocation f = os_path_join fileLocation f' →
                f = f') →
  let w' := (extract_attachments inTable fileLocation w).2 in
  ∀ i r, i < saved_count w w' → table_rows inTable !! i = Some r →
    ∃ name data,
      ATT_NAME r = Some name ∧ DATA r = Some data
      ∧ files w' !! os_path_join fileLocation
                      (("ATT" +:+ format (ATTACHMENTID r) +:+ "_") +:+ name)
        = Some data.
Proof.
  intros Hint Hdistinct Hjoin w' i r Hi Hr. subst w'.
  destruct (dataset_exists inTable) eqn:Hex.
  2:{ rewrite (saved_count_missing_table _ _ _ Hex) in Hi. lia. }
  destruct (extract_effect inTable fileLocation w Hex)
    as (res & w1 & k & Hrun & Hk & _ & Hcount).
  rewrite Hcount in Hi. rewrite (extract_files _ _ _ _ _ Hrun).
  destruct (block_saved _ _ _ _ _ _ Hk i r Hi Hr)
    as (p & data & Hp & Hd & Hfile).
  assert (Hin : r ∈ table_rows inTable)
    by (apply list_elem_of_lookup; by exists i).
  destruct (ATT_NAME r) as [name|] eqn:Hname;
    [|unfold output_path, file_name in Hp; by rewrite Hname in Hp].
  rewrite (output_path_named _ _ _ Hname) in Hp. injection Hp as <-.
  exists name, data. split; [done|]. split; [done|]. apply Hfile.
  intros j r' Hij _ Hr' Hsame.
  assert (Hin' : r' ∈ table_rows inTable)
    by (apply list_elem_of_lookup; by exists j).
  destruct (ATT_NAME r') as [name'|] eqn:Hname';
    [|unfold output_path, file_name in Hsame; by rewrite Hname' in Hsame].
  rewrite (output_path_named _ _ _ Hname') in Hsame.
  injection Hsame as Hsame.
  apply (Hjoin r' r) in Hsame;
    [|done|done|unfold file_name; by rewrite Hname'
     |unfold file_name; by rewrite Hname].
  destruct (Hint r Hin) as [n Hn]. destruct (Hint r' Hin') as [n' Hn'].
  rewrite Hn, Hn' in Hsame.
  destruct (att_name_inj n' n name' name Hsame) as [-> _].
  assert (i = j); [|lia].
  apply (Hdistinct i j r r' Hr Hr'). congruence.
Qed.

End Names.

Section Script.
Context `{Host}.


(** X16.  With both parameters given, the script is the export of parameter 0
    into parameter 1, in that order, and whatever it leaves open or on
    disk is what [extract_attachments] leaves: no handle stays open and
    nothing that was on disk is gone. *)
Theorem main_exports_first_into_second (w : world) :
  parameter_text 0 ≠ "" →
  parameter_text 1 ≠ "" →
  let w2 := record_call (call_GetParameterAsText 1)
              (record_call (call_GetParameterAsText 0) w) in
  main w = extract_attachments (parameter_text 0) (parameter_text 1) w2
  ∧ handles (main w).2 = handles w
  ∧ dirs w ⊆ dirs (main w).2
  ∧ (∀ p, is_Some (files w !! p) → is_Some (files (main w).2 !! p)).
Proof.
  intros H0 H1 w2.
  assert (Hmain : main w
                  = extract_attachments (parameter_text 0) (parameter_text 1)
                      w2).
  { unfold main, GetParameterAsText, mbind, py_bind.
    destruct (parameter_text 0) as [|c0 s0]; [done|].
    by destruct (parameter_text 1) as [|c1 s1]. }
  split; [exact Hmain|]. rewrite Hmain.
  set (inTable := parameter_text 0). set (fileLocation := parameter_text 1).
  destruct (dataset_exists inTable) eqn:Hex.
  - destruct (extract_effect inTable fileLocation w2 Hex)
      as (res & w1 & k & _ & [_ _ _ _ Kh Kd Kk _ _ _] & -> & _).
    assert (Hsame : ∀ w3 : world,
              (Returned tt,
               if res is Raised e then emit (failure_message e) w1 else w1).2
              = w3 →
              handles w3 = handles w1 ∧ dirs w3 = dirs w1
              ∧ files w3 = files w1).
    { intros w3 <-. by destruct res. }
    destruct (Hsame _ eq_refl) as (-> & -> & ->). by split.
  - by rewrite (extract_missing inTable fileLocation w2 Hex).
Qed.

End Script.

(** ** The further properties on concrete runs *)

(** Message order on the two photographs of the scenario. *)
Lemma messages_follow_cursor_order_witness :
  let host := reliable photos "out" photos
                (Next jpg_a (Next jpg_b StopIteration)) in
  let w' := (@extract_attachments host photos "out" blank).2 in
  @dataset_exists host photos = true
  ∧ ∃ created failure,
      new_messages blank w'
      = created
        ++ map saved_message
             (take (saved_count blank w') (@table_rows host photos))
        ++ failure.
Proof.
  split; [reflexivity|].
  destruct (@messages_follow_cursor_order
              (reliable photos "out" photos
                 (Next jpg_a (Next jpg_b StopIteration)))
              photos "out" blank eq_refl)
    as (created & failure & Hnew & _).
  by exists created, failure.
Defined.

(** A run without error on the two photographs has saved both. *)
Lemma no_error_means_all_rows_saved_witness :
  let host := reliable photos "out" photos
                (Next jpg_a (Next jpg_b StopIteration)) in
  let w' := (@extract_attachments host photos "out" blank).2 in
  filter is_error (new_messages blank w') = []
  ∧ saved_count blank w' = 2.
Proof.
  split; [vm_compute; reflexivity|].
  refine (proj1 (proj2
    (@no_error_means_all_rows_saved
       (reliable photos "out" photos
          (Next jpg_a (Next jpg_b StopIteration)))
       photos "out" blank _))).
  vm_compute. reflexivity.
Defined.

(** A destination that exists already, holding an older file. *)
Lemma existing_destination_left_alone_witness :
  let host := reliable photos "out" photos (Next jpg_a StopIteration) in
  let w := disk_with "out/old.txt" ["255"%byte] in
  let w' := (@extract_attachments host photos "out" w).2 in
  @dataset_exists host photos = true
  ∧ path_present w "out" = true
  ∧ dirs w' = dirs w.
Proof.
  split; [reflexivity|]. split; [vm_compute; reflexivity|].
  refine (proj1
    (@existing_destination_left_alone
       (reliable photos "out" photos (Next jpg_a StopIteration))
       photos "out" (disk_with "out/old.txt" ["255"%byte]) _ _)).
  - reflexivity.
  - vm_compute. reflexivity.
Defined.

(** A destination on a read-only file system. *)
Lemma makedirs_failure_reads_nothing_witness :
  let host := read_only (Next jpg_a StopIteration) in
  @dataset_exists host photos = true
  ∧ path_present blank "out/photos" = false
  ∧ ∃ w', @extract_attachments host photos "out/photos" blank
          = (Returned tt, w')
      ∧ new_calls blank w'
        = [call_Exists photos; call_path_exists "out/photos";
           call_makedirs "out/photos"]
      ∧ files w' = files blank.
Proof.
  split; [reflexivity|]. split; [vm_compute; reflexivity|].
  destruct (@makedirs_failure_reads_nothing
              (read_only (Next jpg_a StopIteration)) photos "out/photos"
              blank (Exception "[Errno 30] Read-only file system") 0
              eq_refl eq_refl eq_refl)
    as (w' & Hrun & _ & Hcalls & Hfiles & _).
  exists w'. repeat split; assumption.
Defined.

(** A table without the ATT_NAME column. *)
Lemma cursor_failure_keeps_directory_witness :
  let w' :=
    emit (ErrorMessage ("Error while extracting attachments: "
                        +:+ "Cannot find field 'ATT_NAME'"))
      (@loop_entry missing_column photos "out" blank) in
  @dataset_exists missing_column photos = true
  ∧ @open_cursor missing_column photos cursor_fields
    = inl (Exception "Cannot find field 'ATT_NAME'")
  ∧ @extract_attachments missing_column photos "out" blank
    = (Returned tt, w')
  ∧ path_present w' "out" = true
  ∧ files w' = files blank.
Proof.
  split; [reflexivity|]. split; [reflexivity|].
  destruct (@cursor_failure_keeps_directory missing_column photos "out"
              blank (Exception "Cannot find field 'ATT_NAME'")
              eq_refl (λ _, eq_refl) eq_refl)
    as (Hrun & Hthere & Hfiles & _).
  repeat split; assumption.
Defined.

(** A row without a name between two photographs. *)
Lemma null_name_stops_before_open_witness :
  let host := reliable photos "out" photos
                (Next jpg_a (Next unnamed_row (Next jpg_b StopIteration))) in
  let w := (for_in (prepend [jpg_a] StopIteration) (@loop_body host "out")
              (@loop_entry host photos "out" blank)).2 in
  let w' := (@extract_attachments host photos "out" blank).2 in
  ATT_NAME unnamed_row = None
  ∧ files w' = files w
  ∧ saved_count blank w' = 1.
Proof.
  split; [reflexivity|].
  destruct (@null_name_stops_before_open
              (reliable photos "out" photos
                 (Next jpg_a (Next unnamed_row (Next jpg_b StopIteration))))
              photos "out" blank
              (for_in (prepend [jpg_a] StopIteration)
                 (@loop_body
                    (reliable photos "out" photos
                       (Next jpg_a
                          (Next unnamed_row (Next jpg_b StopIteration))))
                    "out")
                 (@loop_entry
                    (reliable photos "out" photos
                       (Next jpg_a
                          (Next unnamed_row (Next jpg_b StopIteration))))
                    photos "out" blank)).2
              [jpg_a] unnamed_row (Next jpg_b StopIteration)
              eq_refl (λ _, eq_refl) eq_refl eq_refl eq_refl)
    as (Hrun & Hfiles & _ & Hcount).
  cbv zeta. rewrite Hrun. split; [exact Hfiles|exact Hcount].
Defined.

(** A second photograph whose path cannot be opened. *)
Lemma open_failure_leaves_disk_witness :
  let host := locked_at "out/ATT2_b.jpg"
                (Next jpg_a (Next jpg_b StopIteration)) in
  let w := (for_in (prepend [jpg_a] StopIteration) (@loop_body host "out")
              (@loop_entry host photos "out" blank)).2 in
  ATT_NAME jpg_b = Some "b.jpg"
  ∧ @open_fault host w "out/ATT2_b.jpg"
    = Some (Exception "[Errno 13] Permission denied")
  ∧ ∃ w', @extract_attachments host photos "out" blank = (Returned tt, w')
      ∧ files w' = files w
      ∧ saved_count blank w' = 1.
Proof.
  split; [reflexivity|]. split; [reflexivity|].
  destruct (@open_failure_leaves_disk
              (locked_at "out/ATT2_b.jpg"
                 (Next jpg_a (Next jpg_b StopIteration)))
              photos "out" blank
              (for_in (prepend [jpg_a] StopIteration)
                 (@loop_body
                    (locked_at "out/ATT2_b.jpg"
                       (Next jpg_a (Next jpg_b StopIteration)))
                    "out")
                 (@loop_entry
                    (locked_at "out/ATT2_b.jpg"
                       (Next jpg_a (Next jpg_b StopIteration)))
                    photos "out" blank)).2
              [jpg_a] jpg_b StopIteration "b.jpg"
              (Exception "[Errno 13] Permission denied")
              eq_refl (λ _, eq_refl) eq_refl eq_refl eq_refl eq_refl)
    as (w' & Hrun & _ & Hfiles & _ & _ & Hcount).
  exists w'. repeat split; assumption.
Defined.

(** A first photograph of two bytes of which one reaches the disk. *)
Lemma write_failure_leaves_partial_file_witness :
  let host := disk_fills_after 1 "out/ATT1_a.jpg"
                (Next jpg_a (Next jpg_b StopIteration)) in
  let w := @loop_entry host photos "out" blank in
  DATA jpg_a = Some ["001"%byte; "002"%byte]
  ∧ @write_fault host (@opened "out/ATT1_a.jpg" wb w) "out/ATT1_a.jpg"
      ["001"%byte; "002"%byte]
    = Some (Exception "[Errno 28] No space left on device", 1)
  ∧ ∃ w', @extract_attachments host photos "out" blank = (Returned tt, w')
      ∧ files w' !! "out/ATT1_a.jpg" = Some ["001"%byte]
      ∧ handles w' = handles w
      ∧ saved_count blank w' = 0.
Proof.
  split; [reflexivity|]. split; [reflexivity|].
  destruct (@write_failure_leaves_partial_file
              (disk_fills_after 1 "out/ATT1_a.jpg"
                 (Next jpg_a (Next jpg_b StopIteration)))
              photos "out" blank
              (@loop_entry
                 (disk_fills_after 1 "out/ATT1_a.jpg"
                    (Next jpg_a (Next jpg_b StopIteration)))
                 photos "out" blank)
              [] jpg_a (Next jpg_b StopIteration) "a.jpg"
              ["001"%byte; "002"%byte]
              (Exception "[Errno 28] No space left on device") 1
              eq_refl (λ _, eq_refl) eq_refl eq_refl eq_refl eq_refl
              eq_refl eq_refl)
    as (w' & Hrun & _ & Hfile & Hhandles & _ & Hcount).
  exists w'. repeat split; assumption.
Defined.

(** Two rows with the same name: the identifiers must agree. *)
Lemma integer_ids_give_distinct_names_witness :
  ATTACHMENTID jpg_a = id_int 1
  ∧ ATTACHMENTID dup_first = id_int 1
  ∧ file_name jpg_a = Some "ATT1_a.jpg"
  ∧ file_name dup_first = Some "ATT1_a.jpg"
  ∧ (1 = 1)%Z ∧ ATT_NAME jpg_a = ATT_NAME dup_first.
Proof.
  repeat (split; [reflexivity|]).
  apply (integer_ids_give_distinct_names jpg_a dup_first 1 1 "ATT1_a.jpg");
    reflexivity.
Defined.

(** The two photographs have identifiers 1 and 2. *)
Lemma distinct_ids_keep_every_payload_witness :
  let host := reliable photos "out" photos
                (Next jpg_a (Next jpg_b StopIteration)) in
  let w' := (@extract_attachments host photos "out" blank).2 in
  1 < saved_count blank w'
  ∧ ∃ name data,
      ATT_NAME jpg_b = Some name ∧ DATA jpg_b = Some data
      ∧ files w' !! @os_path_join host "out"
                      (("ATT" +:+ format (ATTACHMENTID jpg_b) +:+ "_")
                       +:+ name)
        = Some data.
Proof.
  split; [vm_compute; lia|].
  refine (@distinct_ids_keep_every_payload
            (reliable photos "out" photos
               (Next jpg_a (Next jpg_b StopIteration)))
            photos "out" blank _ _ _ 1 jpg_b _ _).
  - intros r Hr. vm_compute in Hr.
    apply elem_of_cons in Hr as [->|Hr]; [by exists 1%Z|].
    apply elem_of_cons in Hr as [->|Hr]; [by exists 2%Z|].
    by apply not_elem_of_nil in Hr.
  - intros [|[|i]] [|[|j]] r r' Hr Hr' Hid; try discriminate;
      try reflexivity; injection Hr as <-; injection Hr' as <-;
      discriminate.
  - intros r r' f f' Hr Hr' Hf Hf' Hjoin. vm_compute in Hr, Hr'.
    apply elem_of_cons in Hr as [->|Hr];
      [|apply elem_of_cons in Hr as [->|Hr];
        [|by apply not_elem_of_nil in Hr]];
    (apply elem_of_cons in Hr' as [->|Hr'];
      [|apply elem_of_cons in Hr' as [->|Hr'];
        [|by apply not_elem_of_nil in Hr']]);
    vm_compute in Hf, Hf'; injection Hf as <-; injection Hf' as <-;
    vm_compute in Hjoin; first [reflexivity|discriminate].
  - vm_compute. lia.
  - reflexivity.
Defined.

(** Both parameters given. *)
Lemma main_exports_first_into_second_witness :
  let host := reliable photos "out" photos
                (Next jpg_a (Next jpg_b StopIteration)) in
  @parameter_text host 0 ≠ ""
  ∧ @parameter_text host 1 ≠ ""
  ∧ handles (@main host blank).2 = handles blank.
Proof.
  split; [discriminate|]. split; [discriminate|].
  refine (proj1 (proj2
    (@main_exports_first_into_second
       (reliable photos "out" photos
          (Next jpg_a (Next jpg_b StopIteration)))
       blank _ _))); discriminate.
Defined.
